(** * redisdb-stream: the Redis-stream worker of golang-queue

    A shallow embedding of [redis.go] (package [redisdb]) and the
    properties of its consumer loop, its request polling loop, its
    enqueue path and its shutdown protocol.

    The worker talks to three things it does not own: the Redis client
    ([redis.Cmdable]), the Go scheduler (which case of a [select] fires,
    which goroutine runs next) and the wall clock ([time.After]).  Each
    function is embedded as a Rocq function that takes the answers of
    these three as an explicit environment argument and returns the
    effects it performed as a list of events, in program order. *)

From Stdlib Require Import ZArith String List Lia.
From stdpp Require Import base gmap strings list.

Local Open Scope string_scope.
Local Open Scope Z_scope.
Local Open Scope list_scope.

(** ** Go data *)

(** [time.Duration] is an int64 count of nanoseconds. *)
Definition Duration := Z.
Definition Millisecond : Duration := 1000000.
Definition Second : Duration := 1000 * Millisecond.

(** [bytesconv.BytesToStr] and [bytesconv.StrToBytes] reinterpret the same
    bytes, without copying. *)
Definition BytesToStr (b : list Byte.byte) : string := string_of_list_byte b.
Definition StrToBytes (s : string) : list Byte.byte := list_byte_of_string s.

(** A value held in an [interface{}], by dynamic type.  [INil] is the nil
    interface, which is also what indexing a map at a missing key gives. *)
Inductive iface :=
| INil
| IString (s : string)
| IBytes (b : list Byte.byte)
| IInt (n : Z)
| IBool (b : bool).

(** The error values the worker sees.  The first three are the exported
    error variables of package [queue]; [redis_Nil] is [redis.Nil]; any
    other error of the client is [OtherError]. *)
Inductive error :=
| ErrQueueShutdown
| ErrNoTaskInQueue
| ErrQueueHasBeenClosed
| redis_Nil
| OtherError (msg : string).

(** [errors.Is(err, redis.Nil)] on the errors above. *)
Definition is_redis_Nil (e : error) : bool :=
  match e with redis_Nil => true | _ => false end.

(** [redis.XMessage], [redis.XStream], and the two argument structs, with
    the fields [redis.go] sets (the others keep their zero value). *)
Record XMessage := mkXMessage {
  ID : string;
  Values : gmap string iface
}.

Record XStream := mkXStream {
  Stream : string;
  Messages : list XMessage
}.

Record XReadGroupArgs := mkXReadGroupArgs {
  rg_Group : string;
  rg_Consumer : string;
  rg_Streams : list string;
  rg_Count : Z;
  rg_Block : Duration
}.

Record XAddArgs := mkXAddArgs {
  xa_Stream : string;
  xa_MaxLen : Z;
  xa_Values : gmap string iface
}.

(** [core.TaskMessage]: an interface with the method [Bytes() []byte]. *)
Record TaskMessage := mkTask { Bytes : list Byte.byte }.

(** The fields of [options] that [redis.go] reads. *)
Record options := mkOptions {
  streamName : string;
  group : string;
  consumer : string;
  blockTime : Duration;
  maxLength : Z;
  connectionString : string;
  addr : string;
  cluster : bool
}.

(** The dynamic type of [w.rdb].  [NewWorker] is the only place a [Worker]
    is built and it stores a [*redis.Client] or a [*redis.ClusterClient]. *)
Inductive Cmdable := Client | ClusterClient.

(** The client [NewWorker] builds.  [parse_err] is what [redis.ParseURL]
    answers; on an error the logger's [Fatal] ends the process.  With
    neither a connection string nor an address the field stays nil and the
    [Ping] that follows panics.  [None] stands for both. *)
Definition NewWorker_rdb (parse_err : option error) (o : options)
  : option Cmdable :=
  if negb (String.eqb (connectionString o) EmptyString) then
    match parse_err with
    | Some _ => None
    | None => Some Client
    end
  else if negb (String.eqb (addr o) EmptyString) then
    if cluster o then Some ClusterClient else Some Client
  else None.

(** A channel that is only ever closed ([stop], [exit]) or closed and used
    for rendezvous ([tasks], unbuffered): the state kept is whether it was
    closed. *)
Inductive chan := ChStop | ChExit | ChTasks.

Record Worker := mkWorker {
  rdb : Cmdable;
  rdb_closed : bool;
  tasks_closed : bool;
  stopFlag : Z;          (* int32, accessed with sync/atomic *)
  stopOnce : bool;       (* sync.Once: has Do run its function *)
  startOnce : bool;
  stop_closed : bool;
  exit_closed : bool;
  opts : options
}.

(** The worker as [NewWorker] leaves it: fresh open channels, flag 0.
    [ping_err] is what [Ping] answers; on an error [Fatal] ends the
    process. *)
Definition NewWorker (parse_err ping_err : option error) (o : options)
  : option Worker :=
  match NewWorker_rdb parse_err o with
  | Some c =>
      match ping_err with
      | Some _ => None
      | None => Some (mkWorker c false false 0 false false false false o)
      end
  | None => None
  end.

(** ** Effects *)

(** The log lines of [redis.go], by call site. *)
Inductive logline :=
| LogGroupExists (e : error)        (* Info(err), BUSYGROUP *)
| LogGroupCreate (e : error)        (* Error(err) *)
| LogNoData                         (* Infof "no data while reading from redis stream %s" *)
| LogReadError (e : error)          (* Errorf "error while reading from redis %s %v" *)
| LogCantAck (id : string)          (* Errorf "can't ack message: %s" *)
| LogRequeue (id : string)          (* Info "re-queue the task: " *)
| LogRequeueFailed (id : string).   (* Error "error to re-queue the task: " *)

(** Which case of the handoff select of [fetchTask] fired: a receiver took
    the message, [stop] was closed, or [tasks] was already closed (a send on
    a closed channel panics). *)
Inductive handoff_case := Delivered | StopSignalled | TasksClosed.

(** Events carry the arguments of the call and, for a store call, the error
    the store answered. *)
Inductive event :=
| EvXGroupCreateMkStream (stream grp start : string) (err : option error)
| EvXReadGroup (a : XReadGroupArgs) (data : list XStream) (err : option error)
| EvXAck (stream grp id : string) (err : option error)
| EvXAdd (a : XAddArgs) (err : option error)
| EvSelect (m : XMessage) (c : handoff_case)
    (* the select offering [w.tasks <- m] ended on case [c] *)
| EvRecv (m : option XMessage)      (* [<-w.tasks] gave [m]; [None]: closed *)
| EvClose (c : chan)
| EvConnClose
| EvAfter (d : Duration)            (* the timer of [time.After d] fired *)
| EvRecvExit (d : Duration)         (* [<-w.exit] completed after waiting [d] *)
| EvGo                              (* [go w.fetchTask()] *)
| EvLog (l : logline).

(** How a call ends: it returns, it panics, or the environment given was
    used up while it was still blocked or looping. *)
Inductive run (A : Type) :=
| Done (a : A)
| Panicked (msg : string)
| Blocked.
Arguments Done {A} a.
Arguments Panicked {A} msg.
Arguments Blocked {A}.

(** Counting events of a kind in a trace. *)
Fixpoint count (p : event -> bool) (tr : list event) : nat :=
  match tr with
  | [] => 0%nat
  | e :: tr' => ((if p e then 1 else 0) + count p tr')%nat
  end.

Definition is_xadd (e : event) : bool :=
  match e with EvXAdd _ _ => true | _ => false end.
Definition is_xack_of (id : string) (e : event) : bool :=
  match e with EvXAck _ _ i _ => String.eqb i id | _ => false end.
Definition is_select_of (id : string) (e : event) : bool :=
  match e with EvSelect m _ => String.eqb (ID m) id | _ => false end.
Definition is_delivery_of (id : string) (e : event) : bool :=
  match e with EvSelect m Delivered => String.eqb (ID m) id | _ => false end.
Definition is_stop_select (e : event) : bool :=
  match e with EvSelect _ StopSignalled => true | _ => false end.
Definition is_stop_select_of (id : string) (e : event) : bool :=
  match e with EvSelect m StopSignalled => String.eqb (ID m) id | _ => false end.
Definition is_close (c : chan) (e : event) : bool :=
  match e, c with
  | EvClose ChStop, ChStop | EvClose ChExit, ChExit
  | EvClose ChTasks, ChTasks => true
  | _, _ => false
  end.
Definition is_conn_close (e : event) : bool :=
  match e with EvConnClose => true | _ => false end.
Definition is_store_call (e : event) : bool :=
  match e with
  | EvXGroupCreateMkStream _ _ _ _ | EvXReadGroup _ _ _
  | EvXAck _ _ _ _ | EvXAdd _ _ => true
  | _ => false
  end.

(** ** [queue] and [Queue] *)

(** [w.queue(data)]: one [XAdd] on the configured stream with the
    configured [MaxLen]; [err] is what the store answers. *)
Definition queue (err : option error) (w : Worker) (data : gmap string iface)
  : list event * option error :=
  ([EvXAdd (mkXAddArgs (streamName (opts w)) (maxLength (opts w)) data) err], err).

(** [atomic.LoadInt32(&w.stopFlag)]. *)
Definition LoadInt32 (v : Z) : Z := v.

Definition Queue (err : option error) (w : Worker) (task : TaskMessage)
  : list event * option error :=
  if LoadInt32 (stopFlag w) =? 1 then ([], Some ErrQueueShutdown)
  else queue err w {[ "body" := IString (BytesToStr (Bytes task)) ]}.

(** ** The consumer loop, [fetchTask] *)

(** What the environment answers when the loop offers one message: the
    case of the select that fires, and the error of the store call made on
    that case ([XAck] after a delivery, [XAdd] after a stop). *)
Record handoff_env := mkHandoff {
  fired : handoff_case;
  store_err : option error
}.

(** What the environment answers during one iteration: whether [<-w.stop]
    is ready at the check that opens the iteration, what [XReadGroup]
    returns, and the handoffs in the order the messages are offered.  When
    the handoffs are used up the loop is still blocked in the select. *)
Record iteration_env := mkIteration {
  stop_ready : bool;
  read_data : list XStream;
  read_err : option error;
  handoffs : list handoff_env
}.

(** The two [return] statements of [fetchTask]. *)
Inductive exit_point := ExitStopCheck | ExitRequeue.

Definition read_args (w : Worker) : XReadGroupArgs :=
  mkXReadGroupArgs (group (opts w)) (consumer (opts w))
    [streamName (opts w); ">"] 1 (blockTime (opts w)).

(** The body of the inner [range] loop: the select on one message.  [None]
    means the loop goes on. *)
Definition handoff (w : Worker) (h : handoff_env) (message : XMessage)
  : list event * option (run exit_point) :=
  match fired h with
  | Delivered =>
      (EvSelect message Delivered
       :: EvXAck (streamName (opts w)) (group (opts w)) (ID message) (store_err h)
       :: match store_err h with
          | Some _ => [EvLog (LogCantAck (ID message))]
          | None => []
          end,
       None)
  | StopSignalled =>
      let '(tr, err) := queue (store_err h) w (Values message) in
      (EvSelect message StopSignalled
       :: EvLog (LogRequeue (ID message))
       :: tr
       ++ match err with
          | Some _ => [EvLog (LogRequeueFailed (ID message))]
          | None => []
          end
       ++ [EvClose ChExit],
       Some (Done ExitRequeue))
  | TasksClosed =>
      ([EvSelect message TasksClosed], Some (Panicked "send on closed channel"))
  end.

(** [for _, message := range result.Messages]. *)
Fixpoint range_messages (w : Worker) (ms : list XMessage) (hs : list handoff_env)
  : list event * option (run exit_point) * list handoff_env :=
  match ms with
  | [] => ([], None, hs)
  | message :: ms' =>
      match hs with
      | [] => ([], Some Blocked, [])
      | h :: hs' =>
          let '(tr, k) := handoff w h message in
          match k with
          | Some r => (tr, Some r, hs')
          | None =>
              let '(tr', k', hs'') := range_messages w ms' hs' in
              (tr ++ tr', k', hs'')
          end
      end
  end.

(** [for _, result := range data]. *)
Fixpoint range_data (w : Worker) (data : list XStream) (hs : list handoff_env)
  : list event * option (run exit_point) * list handoff_env :=
  match data with
  | [] => ([], None, hs)
  | result :: data' =>
      let '(tr, k, hs') := range_messages w (Messages result) hs in
      match k with
      | Some r => (tr, Some r, hs')
      | None =>
          let '(tr', k', hs'') := range_data w data' hs' in
          (tr ++ tr', k', hs'')
      end
  end.

(** One pass through the body of the outer [for]. *)
Definition iteration (w : Worker) (e : iteration_env)
  : list event * option (run exit_point) :=
  if stop_ready e then ([], Some (Done ExitStopCheck))
  else
    let read := EvXReadGroup (read_args w) (read_data e) (read_err e) in
    match read_err e with
    | Some err =>
        ([read; EvLog (if is_redis_Nil err then LogNoData else LogReadError err)],
         None)
    | None =>
        let '(tr, k, _) := range_data w (read_data e) (handoffs e) in
        (read :: tr, k)
    end.

(** The loop over the iterations the environment describes; when they are
    used up the loop is still running ([Blocked]). *)
Fixpoint fetchTask (w : Worker) (env : list iteration_env)
  : list event * run exit_point :=
  match env with
  | [] => ([], Blocked)
  | e :: env' =>
      let '(tr, k) := iteration w e in
      match k with
      | Some r => (tr, r)
      | None => let '(tr', r) := fetchTask w env' in (tr ++ tr', r)
      end
  end.

(** ** [Shutdown] *)

(** [atomic.CompareAndSwapInt32(&v, old, new)]: the new content of [v] and
    whether the swap took place. *)
Definition CompareAndSwapInt32 (v old new : Z) : Z * bool :=
  if v =? old then (new, true) else (v, false).

Definition with_stopFlag (v : Z) (w : Worker) : Worker :=
  mkWorker (rdb w) (rdb_closed w) (tasks_closed w) v (stopOnce w)
    (startOnce w) (stop_closed w) (exit_closed w) (opts w).
Definition with_stopOnce (b : bool) (w : Worker) : Worker :=
  mkWorker (rdb w) (rdb_closed w) (tasks_closed w) (stopFlag w) b
    (startOnce w) (stop_closed w) (exit_closed w) (opts w).
Definition with_startOnce (b : bool) (w : Worker) : Worker :=
  mkWorker (rdb w) (rdb_closed w) (tasks_closed w) (stopFlag w) (stopOnce w)
    b (stop_closed w) (exit_closed w) (opts w).
Definition with_stop_closed (w : Worker) : Worker :=
  mkWorker (rdb w) (rdb_closed w) (tasks_closed w) (stopFlag w) (stopOnce w)
    (startOnce w) true (exit_closed w) (opts w).
Definition with_tasks_closed (w : Worker) : Worker :=
  mkWorker (rdb w) (rdb_closed w) true (stopFlag w) (stopOnce w)
    (startOnce w) (stop_closed w) (exit_closed w) (opts w).
Definition with_rdb_closed (w : Worker) : Worker :=
  mkWorker (rdb w) true (tasks_closed w) (stopFlag w) (stopOnce w)
    (startOnce w) (stop_closed w) (exit_closed w) (opts w).

(** [close(w.stop)] and [close(w.tasks)]: closing a closed channel panics. *)
Definition close_stop (w : Worker) : option Worker :=
  if stop_closed w then None else Some (with_stop_closed w).
Definition close_tasks (w : Worker) : option Worker :=
  if tasks_closed w then None else Some (with_tasks_closed w).

(** The type switch on [w.rdb]: both cases call [v.Close()]. *)
Definition close_rdb (w : Worker) : Worker * list event :=
  match rdb w with
  | Client => (with_rdb_closed w, [EvConnClose])
  | ClusterClient => (with_rdb_closed w, [EvConnClose])
  end.

(** The grace period of the wait for the requeue. *)
Definition grace : Duration := 200 * Millisecond.

(** The select between [<-w.exit] and [<-time.After(200ms)].  The
    environment says how long after [close(w.stop)] the consumer loop
    closes [exit], if it ever does. *)
Definition wait_requeue (exit_after : option Duration) : event :=
  match exit_after with
  | Some d => if d <? grace then EvRecvExit d else EvAfter grace
  | None => EvAfter grace
  end.

(** The function given to [w.stopOnce.Do]. *)
Definition shutdown_once (exit_after : option Duration) (w : Worker)
  : Worker * list event * run unit :=
  match close_stop w with
  | None => (w, [], Panicked "close of closed channel")
  | Some w1 =>
      let wait := wait_requeue exit_after in
      let '(w2, closing) := close_rdb w1 in
      match close_tasks w2 with
      | None =>
          (w2, EvClose ChStop :: wait :: closing, Panicked "close of closed channel")
      | Some w3 =>
          (w3, EvClose ChStop :: wait :: closing ++ [EvClose ChTasks], Done tt)
      end
  end.

(** [sync.Once.Do]: the function runs if none ran before, and the once is
    marked when it returns. *)
Definition stopOnce_Do (f : Worker -> Worker * list event * run unit) (w : Worker)
  : Worker * list event * run unit :=
  if stopOnce w then (w, [], Done tt)
  else
    let '(w', tr, r) := f w in
    (with_stopOnce true w', tr, r).

Definition Shutdown (exit_after : option Duration) (w : Worker)
  : Worker * list event * run (option error) :=
  let '(flag, swapped) := CompareAndSwapInt32 (stopFlag w) 0 1 in
  let w0 := with_stopFlag flag w in
  if negb swapped then (w0, [], Done (Some ErrQueueShutdown))
  else
    let '(w', tr, r) := stopOnce_Do (shutdown_once exit_after) w0 in
    match r with
    | Done _ => (w', tr, Done None)
    | Panicked msg => (w', tr, Panicked msg)
    | Blocked => (w', tr, Blocked)
    end.

(** Time spent blocked, read off a trace. *)
Definition blocked_for (e : event) : Duration :=
  match e with
  | EvAfter d => d
  | EvRecvExit d => d
  | _ => 0
  end.

Fixpoint elapsed (tr : list event) : Duration :=
  match tr with
  | [] => 0
  | e :: tr' => blocked_for e + elapsed tr'
  end.

(** ** [startConsumer] and [Request] *)

(** [err.Error()]. *)
Definition Error_text (e : error) : string :=
  match e with
  | ErrQueueShutdown => "queue has been closed and released"
  | ErrNoTaskInQueue => "golang-queue: no task in queue"
  | ErrQueueHasBeenClosed => "golang-queue: queue has been closed"
  | redis_Nil => "redis: nil"
  | OtherError msg => msg
  end.

(** [w.startOnce.Do]: create the group, log what the store answers, start
    the consumer loop. *)
Definition startConsumer (create_err : option error) (w : Worker)
  : Worker * list event :=
  if startOnce w then (w, [])
  else
    (with_startOnce true w,
     EvXGroupCreateMkStream (streamName (opts w)) (group (opts w)) "$" create_err
     :: match create_err with
        | Some err =>
            if String.eqb (Error_text err)
                 "BUSYGROUP Consumer Group name already exists"
            then [EvLog (LogGroupExists err)]
            else [EvLog (LogGroupCreate err)]
        | None => []
        end
     ++ [EvGo]).

(** [job.Message] and [json.Unmarshal] into it come from outside the
    repository: the message type, its zero value ([var data job.Message])
    and the decoder, which writes through the pointer it is given. *)
Class JobMessage := {
  Message : Type;
  zero_Message : Message;
  json_Unmarshal : list Byte.byte -> Message -> Message * option error
}.

(** What one pass through the select of [Request] meets. *)
Inductive poll :=
| Received (task : XMessage)
| ChannelClosed
| TimedOut.

(** Go's [int] is 64 bits wide here; [clock += 1] wraps. *)
Definition wrap_int (z : Z) : Z := (z + 2 ^ 63) mod 2 ^ 64 - 2 ^ 63.

(** The dynamic type named by the failed assertion [.(string)]. *)
Definition type_name (v : iface) : string :=
  match v with
  | INil => "nil"
  | IString _ => "string"
  | IBytes _ => "[]uint8"
  | IInt _ => "int64"
  | IBool _ => "bool"
  end.

Section Request.
Context `{JM : JobMessage}.

(** The labelled loop of [Request], from a given [clock]. *)
Fixpoint Request_loop (clock : Z) (polls : list poll)
  : list event * run (option Message * option error) :=
  match polls with
  | [] => ([], Blocked)
  | ChannelClosed :: _ =>
      ([EvRecv None], Done (None, Some ErrQueueHasBeenClosed))
  | Received task :: _ =>
      match Values task !! "body" with
      | Some (IString body) =>
          let '(data, _) := json_Unmarshal (StrToBytes body) zero_Message in
          ([EvRecv (Some task)], Done (Some data, None))
      | Some v =>
          ([EvRecv (Some task)],
           Panicked ("interface conversion: interface {} is " +:+ type_name v
                     +:+ ", not string"))
      | None =>
          ([EvRecv (Some task)],
           Panicked "interface conversion: interface {} is nil, not string")
      end
  | TimedOut :: polls' =>
      if clock =? 5 then
        ([EvAfter (1 * Second)], Done (None, Some ErrNoTaskInQueue))
      else
        let '(tr, r) := Request_loop (wrap_int (clock + 1)) polls' in
        (EvAfter (1 * Second) :: tr, r)
  end.

Definition Request (create_err : option error) (polls : list poll) (w : Worker)
  : Worker * list event * run (option Message * option error) :=
  let clock := 0 in
  let '(w', started) := startConsumer create_err w in
  let '(tr, r) := Request_loop clock polls in
  (w', started ++ tr, r).

End Request.

(** ** Concurrent calls of [Shutdown] *)

(** Where a call of [Shutdown] stands.  Each constructor is one atomic
    step of the function: the compare-and-swap, the entry into
    [stopOnce.Do], the four statements of the once function, the return. *)
Inductive sd_pc :=
| SdCall
| SdOnce
| SdCloseStop
| SdWait
| SdCloseConn
| SdCloseTasks
| SdReturned (r : run (option error)).

(** The worker shared by the calls, the mutex of [stopOnce], the calls, and
    the effects performed so far, in the order they happened. *)
Record config := mkConfig {
  cw : Worker;
  once_held : bool;
  threads : list sd_pc;
  ctrace : list event
}.

(** One step of one call.  A call that finds the mutex of the once held
    stays where it is. *)
Definition sd_step (exit_after : option Duration) (w : Worker) (held : bool)
    (pc : sd_pc) : Worker * bool * sd_pc * list event :=
  match pc with
  | SdCall =>
      let '(flag, swapped) := CompareAndSwapInt32 (stopFlag w) 0 1 in
      (with_stopFlag flag w, held,
       if swapped then SdOnce else SdReturned (Done (Some ErrQueueShutdown)),
       [])
  | SdOnce =>
      if stopOnce w then (w, held, SdReturned (Done None), [])
      else if held then (w, held, SdOnce, [])
      else (w, true, SdCloseStop, [])
  | SdCloseStop =>
      match close_stop w with
      | None =>
          (with_stopOnce true w, false,
           SdReturned (Panicked "close of closed channel"), [])
      | Some w' => (w', held, SdWait, [EvClose ChStop])
      end
  | SdWait => (w, held, SdCloseConn, [wait_requeue exit_after])
  | SdCloseConn =>
      let '(w', tr) := close_rdb w in (w', held, SdCloseTasks, tr)
  | SdCloseTasks =>
      match close_tasks w with
      | None =>
          (with_stopOnce true w, false,
           SdReturned (Panicked "close of closed channel"), [])
      | Some w' =>
          (with_stopOnce true w', false, SdReturned (Done None), [EvClose ChTasks])
      end
  | SdReturned r => (w, held, pc, [])
  end.

(** The scheduler picks a call, and says what the wait of that call would
    meet; picking a call that does not exist changes nothing. *)
Definition sched_item := (nat * option Duration)%type.

Definition sched_step (c : config) (it : sched_item) : config :=
  match threads c !! fst it with
  | None => c
  | Some pc =>
      let '(w', held', pc', evs) := sd_step (snd it) (cw c) (once_held c) pc in
      mkConfig w' held' (<[fst it := pc']> (threads c)) (ctrace c ++ evs)
  end.

Definition exec (c : config) (sched : list sched_item) : config :=
  fold_left sched_step sched c.

(** [n] calls of [Shutdown] on the worker [w], none of which has started. *)
Definition calls (w : Worker) (n : nat) : config :=
  mkConfig w false (replicate n SdCall) [].

Definition returned (pc : sd_pc) : bool :=
  match pc with SdReturned _ => true | _ => false end.

(** A call that is running the shutdown sequence or has completed it. *)
Definition performs (pc : sd_pc) : bool :=
  match pc with
  | SdCall | SdReturned (Done (Some _)) => false
  | _ => true
  end.

(** * Vocabulary of the properties *)

(** ** Traces of the consumer loop *)

(** The entries of a read result, in the order the nested [range] loops
    meet them. *)
Definition flat_messages (data : list XStream) : list XMessage :=
  concat (map Messages data).

(** The entries the loop has read: those of the successful [XReadGroup]
    calls of a trace. *)
Fixpoint entries_read (tr : list event) : list XMessage :=
  match tr with
  | [] => []
  | EvXReadGroup _ data None :: tr' => flat_messages data ++ entries_read tr'
  | _ :: tr' => entries_read tr'
  end.

Fixpoint occurrences (id : string) (ms : list XMessage) : nat :=
  match ms with
  | [] => 0%nat
  | m :: ms' => ((if String.eqb (ID m) id then 1 else 0) + occurrences id ms')%nat
  end.

(** The [XAdd] that requeues the entry [m]. *)
Definition requeue_of (w : Worker) (m : XMessage) (err : option error) : event :=
  EvXAdd (mkXAddArgs (streamName (opts w)) (maxLength (opts w)) (Values m)) err.

(** What holds of a stretch [tr] of the loop that offered entries among
    [ms] and went on ([k = None]) or ended ([k = Some r]). *)
Record loop_facts (w : Worker) (ms : list XMessage) (tr : list event)
    (k : option (run exit_point)) : Prop := {
  lf_acks : forall id, count (is_xack_of id) tr = count (is_delivery_of id) tr;
  lf_selects : forall id, (count (is_select_of id) tr <= occurrences id ms)%nat;
  lf_xadds : count is_xadd tr = count is_stop_select tr;
  lf_close : count (is_close ChExit) tr = count is_stop_select tr;
  lf_stops :
    count is_stop_select tr
    = match k with Some (Done ExitRequeue) => 1%nat | _ => 0%nat end;
  lf_values :
    forall m, In (EvSelect m StopSignalled) tr ->
              exists err, In (requeue_of w m err) tr;
  lf_last :
    k = Some (Done ExitRequeue) -> exists tr', tr = tr' ++ [EvClose ChExit]
}.

(** The store honours [Count]: a read returns at most that many entries. *)
Definition count_respected (w : Worker) (e : iteration_env) : Prop :=
  Z.of_nat (length (flat_messages (read_data e))) <= rg_Count (read_args w).

(** The two fates of an entry, read off the trace of the loop, in calls
    made.  Handed off: one select on the entry ended with a delivery, one
    [XAck] call was issued for its ID, and no select on it ended on [stop].
    Stopped: one select on the entry ended on [stop], the one [XAdd] call
    of the run carries its field map, and no [XAck] call was issued for it
    and no select delivered it.  Neither says what the store answered. *)
Definition handed_off_one_xack (m : XMessage) (tr : list event) : Prop :=
  count (is_delivery_of (ID m)) tr = 1%nat
  /\ count (is_xack_of (ID m)) tr = 1%nat
  /\ count (is_stop_select_of (ID m)) tr = 0%nat.

Definition stopped_one_xadd (w : Worker) (m : XMessage) (tr : list event)
  : Prop :=
  count (is_stop_select_of (ID m)) tr = 1%nat
  /\ (exists err, In (requeue_of w m err) tr)
  /\ count is_xadd tr = 1%nat
  /\ count (is_xack_of (ID m)) tr = 0%nat
  /\ count (is_delivery_of (ID m)) tr = 0%nat.

Definition entry_fate (w : Worker) (m : XMessage) (tr : list event) : Prop :=
  handed_off_one_xack m tr \/ stopped_one_xadd w m tr.

(** What the store answered.  An [XAck] acknowledges the entry when the
    store accepts it: [acknowledgements] counts the accepted [XAck] calls
    for an ID. *)
Definition is_accepted_xack_of (id : string) (e : event) : bool :=
  match e with EvXAck _ _ i None => String.eqb i id | _ => false end.

Definition acknowledgements (m : XMessage) (tr : list event) : nat :=
  count (is_accepted_xack_of (ID m)) tr.

(** The fate of an entry that was handed off, with the answer of the
    store: the one [XAck] issued for its ID is on the configured stream and
    group; the entry is acknowledged, once, when the store accepted that
    call, and otherwise it is not acknowledged and the failure is logged. *)
Definition handed_off_fate (w : Worker) (m : XMessage) (tr : list event)
  : Prop :=
  handed_off_one_xack m tr
  /\ exists err,
       In (EvXAck (streamName (opts w)) (group (opts w)) (ID m) err) tr
       /\ (forall s g e,
             In (EvXAck s g (ID m) e) tr ->
             EvXAck s g (ID m) e
             = EvXAck (streamName (opts w)) (group (opts w)) (ID m) err)
       /\ match err with
          | None => acknowledgements m tr = 1%nat
          | Some _ =>
              acknowledgements m tr = 0%nat
              /\ In (EvLog (LogCantAck (ID m))) tr
          end.

(** The fate of an entry on whose handoff [stop] was signalled, with the
    answer of the store: the one [XAdd] of the run carries its field map;
    the entry is re-submitted when the store accepted that call, and
    otherwise the failure is logged; it is never acknowledged. *)
Definition requeue_fate (w : Worker) (m : XMessage) (tr : list event) : Prop :=
  stopped_one_xadd w m tr
  /\ acknowledgements m tr = 0%nat
  /\ exists err,
       In (requeue_of w m err) tr
       /\ (forall a e, In (EvXAdd a e) tr -> EvXAdd a e = requeue_of w m err)
       /\ match err with
          | None => True
          | Some _ => In (EvLog (LogRequeueFailed (ID m))) tr
          end.

(** Every delivery is followed by its [XAck] and every stop in the handoff
    by its [XAdd]; a call the store rejected is logged. *)
Definition answers_logged (w : Worker) (tr : list event) : Prop :=
  (forall m,
      In (EvSelect m Delivered) tr ->
      exists err,
        In (EvXAck (streamName (opts w)) (group (opts w)) (ID m) err) tr
        /\ (err <> None -> In (EvLog (LogCantAck (ID m))) tr))
  /\ (forall m,
        In (EvSelect m StopSignalled) tr ->
        exists err,
          In (requeue_of w m err) tr
          /\ (err <> None -> In (EvLog (LogRequeueFailed (ID m))) tr)).

(** An iteration in which [stop] is not seen ends neither the loop nor the
    process. *)
Definition stop_unseen (e : iteration_env) : Prop :=
  stop_ready e = false /\ Forall (fun h => fired h = Delivered) (handoffs e).

(** ** Concurrent shutdown *)

(** A worker on which no call of [Shutdown] has won yet: the flag is 0,
    the once has not run, [stop] and [tasks] are open. *)
Definition running (w : Worker) : Prop :=
  stopFlag w = 0 /\ stopOnce w = false
  /\ stop_closed w = false /\ tasks_closed w = false.

(** The effects of the shutdown sequence, in order. *)
Definition shutdown_sequence (exit_after : option Duration) : list event :=
  [EvClose ChStop; wait_requeue exit_after; EvConnClose; EvClose ChTasks].

(** A call that lost the compare-and-swap, or has not tried it yet. *)
Definition loser (pc : sd_pc) : Prop :=
  pc = SdCall \/ pc = SdReturned (Done (Some ErrQueueShutdown)).

(** What the call that won has done when it stands at [pc]. *)
Definition winner_at (pc : sd_pc) (c : config) : Prop :=
  match pc with
  | SdCall => False
  | SdOnce =>
      ctrace c = [] /\ once_held c = false /\ stopOnce (cw c) = false
      /\ stop_closed (cw c) = false /\ tasks_closed (cw c) = false
  | SdCloseStop =>
      ctrace c = [] /\ stop_closed (cw c) = false /\ tasks_closed (cw c) = false
  | SdWait => ctrace c = [EvClose ChStop] /\ tasks_closed (cw c) = false
  | SdCloseConn =>
      exists d, ctrace c = [EvClose ChStop; wait_requeue d]
                /\ tasks_closed (cw c) = false
  | SdCloseTasks =>
      exists d, ctrace c = [EvClose ChStop; wait_requeue d; EvConnClose]
                /\ tasks_closed (cw c) = false
  | SdReturned r =>
      r = Done None /\ exists d, ctrace c = shutdown_sequence d
  end.

(** Either no call has won and nothing has happened, or exactly one has
    and the effects so far are those of its position. *)
Definition shutdown_inv (c : config) : Prop :=
  (running (cw c) /\ Forall (eq SdCall) (threads c)
   /\ ctrace c = [] /\ once_held c = false)
  \/ (stopFlag (cw c) = 1
      /\ exists i pc,
          threads c !! i = Some pc /\ winner_at pc c
          /\ forall j pc', j <> i -> threads c !! j = Some pc' -> loser pc').

(** Steps a call still has to make. *)
Definition steps_left (pc : sd_pc) : nat :=
  match pc with
  | SdCall => 6
  | SdOnce => 5
  | SdCloseStop => 4
  | SdWait => 3
  | SdCloseConn => 2
  | SdCloseTasks => 1
  | SdReturned _ => 0
  end.

(** ** Inputs of the examples *)

(** A worker and two entries. *)
Definition example_options : options :=
  mkOptions "golang-queue" "golang-queue" "golang-queue" (60 * Second) 0
    EmptyString "127.0.0.1:6379" false.

Definition example_worker : Worker :=
  mkWorker Client false false 0 false false false false example_options.

Definition entry_1 : XMessage := mkXMessage "1-0" {[ "body" := IString "a" ]}.
Definition entry_2 : XMessage := mkXMessage "2-0" {[ "body" := IString "b" ]}.

(** A read that returns one entry when [tasks] is already closed:
    [Shutdown] gave up waiting while the loop was in [XReadGroup], and
    closed [tasks] before the loop reached the handoff select. *)
Definition tasks_closed_before_handoff : list iteration_env :=
  [mkIteration false [mkXStream "golang-queue" [entry_1]] None
     [mkHandoff TasksClosed None]].

(** A run with two deliveries, an empty read, a failed ack, and a stop. *)
Definition two_delivered_then_stop : list iteration_env :=
  [mkIteration false [mkXStream "golang-queue" [entry_1]] None
     [mkHandoff Delivered None];
   mkIteration false [] (Some redis_Nil) [];
   mkIteration false [mkXStream "golang-queue" [entry_2]] None
     [mkHandoff Delivered (Some (OtherError "NOGROUP"))];
   mkIteration false
     [mkXStream "golang-queue" [mkXMessage "3-0" {[ "body" := IString "c" ]}]]
     None [mkHandoff StopSignalled None]].

Definition stopped_worker : Worker := with_stopFlag 1 example_worker.

Definition example_task : TaskMessage :=
  mkTask (list_byte_of_string "task-1").

(** Three concurrent calls: the third wins the swap, the first loses it
    before the winner has closed anything, the second while the winner is
    in the once function. *)
Definition three_calls_schedule : list sched_item :=
  [(2%nat, None); (0%nat, None); (2%nat, None); (2%nat, None); (1%nat, None);
   (2%nat, Some (5 * Millisecond)); (2%nat, None); (2%nat, None)].

(** A decoder in the manner of [encoding/json] on a value of the wrong
    type: it fills in what it can and then reports the mismatch.  On an
    empty body it fails having written nothing. *)
Definition partial_JobMessage : JobMessage :=
  {| Message := list Byte.byte;
     zero_Message := [];
     json_Unmarshal b m :=
       match b with
       | [] => (m, Some (OtherError "unexpected end of JSON input"))
       | _ => (b, Some (OtherError "json: cannot unmarshal string into Go struct field"))
       end |}.

(** A decoder for the examples: it fails on an empty body, leaving the
    message as it was, and otherwise stores the body. *)
Definition example_JobMessage : JobMessage :=
  {| Message := list Byte.byte;
     zero_Message := [];
     json_Unmarshal b m :=
       match b with
       | [] => (m, Some (OtherError "unexpected end of JSON input"))
       | _ => (b, None)
       end |}.

(** An entry whose body the example decoder rejects, and one whose body is
    not a string. *)
Definition empty_body : XMessage := mkXMessage "4-0" {[ "body" := IString EmptyString ]}.
Definition int_body : XMessage := mkXMessage "5-0" {[ "body" := IInt 7 ]}.

(** ** Sequences of calls and further readings of a trace *)

Definition is_go (e : event) : bool :=
  match e with EvGo => true | _ => false end.
Definition is_group_create (e : event) : bool :=
  match e with EvXGroupCreateMkStream _ _ _ _ => true | _ => false end.
Definition is_timer (e : event) : bool :=
  match e with EvAfter _ => true | _ => false end.

(** What one call of [Request] meets: the answer to the group creation,
    should this call be the one that makes it, and the polls. *)
Record request_env := mkRequestEnv {
  create_answer : option error;
  polls_met : list poll
}.

Section Sequences.
Context `{JM : JobMessage}.

(** The host calls [Request] again and again on the same worker.  A call
    that panics or stays blocked is the last one. *)
Fixpoint Requests (envs : list request_env) (w : Worker) : Worker * list event :=
  match envs with
  | [] => (w, [])
  | e :: envs' =>
      let '(w', tr, r) := Request (create_answer e) (polls_met e) w in
      match r with
      | Done _ => let '(w'', tr') := Requests envs' w' in (w'', tr ++ tr')
      | _ => (w', tr)
      end
  end.

End Sequences.

(** The entries on which a handoff select ended, those it delivered, and
    the IDs acknowledged, each in the order of the trace. *)
Fixpoint selected (tr : list event) : list XMessage :=
  match tr with
  | [] => []
  | EvSelect m _ :: tr' => m :: selected tr'
  | _ :: tr' => selected tr'
  end.

Fixpoint delivered (tr : list event) : list XMessage :=
  match tr with
  | [] => []
  | EvSelect m Delivered :: tr' => m :: delivered tr'
  | _ :: tr' => delivered tr'
  end.

Fixpoint acked_ids (tr : list event) : list string :=
  match tr with
  | [] => []
  | EvXAck _ _ id _ :: tr' => id :: acked_ids tr'
  | _ :: tr' => acked_ids tr'
  end.

(** How the entries [ms] read in a stretch [tr] of the loop stand: the
    acknowledged IDs are those of the delivered entries, in order; the
    entries are the delivered ones, then at most one on which a select
    ended otherwise, then those never offered.  A stretch after which the
    loop goes on, or returns at the stop check, has delivered everything;
    entries are left unoffered behind a delivery only when the loop is
    blocked. *)
Definition handoff_order (ms : list XMessage) (tr : list event)
    (k : option (run exit_point)) : Prop :=
  acked_ids tr = map ID (delivered tr)
  /\ exists last rest,
       ms = delivered tr ++ last ++ rest
       /\ selected tr = delivered tr ++ last
       /\ (length last <= 1)%nat
       /\ (k = None -> last = [] /\ rest = [])
       /\ (last = [] -> rest <> [] -> k = Some Blocked)
       /\ (k = Some (Done ExitStopCheck) -> last = [] /\ rest = []).

(** The events the consumer loop can produce: reads with the arguments of
    [read_args], acks and adds on the configured stream, selects, logs, and
    the close of [exit]. *)
Definition loop_event (w : Worker) (e : event) : Prop :=
  match e with
  | EvXReadGroup a _ _ => a = read_args w
  | EvXAck stream grp _ _ =>
      stream = streamName (opts w) /\ grp = group (opts w)
  | EvXAdd a _ =>
      xa_Stream a = streamName (opts w) /\ xa_MaxLen a = maxLength (opts w)
  | EvSelect _ _ => True
  | EvLog _ => True
  | EvClose ChExit => True
  | _ => False
  end.

(** What the loop does once [stop] is seen during the handoff of [m]. *)
Definition stop_trace (w : Worker) (m : XMessage) (err : option error)
  : list event :=
  fst (handoff w (mkHandoff StopSignalled err) m).

(** How often a schedule picks the call [i]. *)
Fixpoint picks (i : nat) (sched : list sched_item) : nat :=
  match sched with
  | [] => 0%nat
  | it :: sched' => ((if Nat.eqb (fst it) i then 1 else 0) + picks i sched')%nat
  end.

(** An entry as the store holds it after [Queue] has added [example_task],
    a run that ends at the stop check after one delivery, and a schedule
    that serves two calls in turn. *)
Definition queued_args : XAddArgs :=
  mkXAddArgs "golang-queue" 0
    {[ "body" := IString (BytesToStr (Bytes example_task)) ]}.

Definition queued_entry : XMessage := mkXMessage "6-0" (xa_Values queued_args).

Definition delivered_then_stop_check : list iteration_env :=
  [mkIteration false [mkXStream "golang-queue" [entry_1]] None
     [mkHandoff Delivered None];
   mkIteration true [] None []].

Definition two_calls_in_turn : list sched_item :=
  concat (replicate 6 [(0%nat, None); (1%nat, Some (20 * Millisecond))]).

(** * Properties *)

(** ** Traces *)

Lemma count_app (p : event -> bool) (a b : list event) :
  count p (a ++ b) = (count p a + count p b)%nat.
Proof.
  induction a as [|e a IH]; simpl; [reflexivity|].
  rewrite IH. lia.
Qed.

Lemma count_In (p : event -> bool) (tr : list event) (e : event) :
  In e tr -> p e = true -> (1 <= count p tr)%nat.
Proof.
  induction tr as [|e' tr IH]; simpl; [tauto|].
  intros [->|Hin] Hp.
  - rewrite Hp. lia.
  - specialize (IH Hin Hp). lia.
Qed.

Lemma count_zero_not_In (p : event -> bool) (tr : list event) (e : event) :
  count p tr = 0%nat -> p e = true -> ~ In e tr.
Proof.
  intros Hz Hp Hin. pose proof (count_In p tr e Hin Hp). lia.
Qed.

Lemma elapsed_app (a b : list event) : elapsed (a ++ b) = elapsed a + elapsed b.
Proof.
  induction a as [|e a IH]; simpl; [reflexivity|].
  rewrite IH. lia.
Qed.

(** ** Enqueue *)

(** C5.  [Queue] reads the lifecycle flag once.  When the flag is 1 it
    returns [ErrQueueShutdown] and makes no store call.  Otherwise it makes
    exactly one store call, an [XAdd] on the configured stream with the
    configured [MaxLen], whose field map has the single field ["body"]
    holding the bytes of the task, and returns what the store answers. *)
Theorem Queue_contract (err : option error) (w : Worker) (task : TaskMessage) :
  (stopFlag w = 1 ->
     Queue err w task = ([], Some ErrQueueShutdown)
     /\ count is_store_call (fst (Queue err w task)) = 0%nat)
  /\ (stopFlag w <> 1 ->
     exists a body,
       Queue err w task = ([EvXAdd a err], err)
       /\ count is_store_call (fst (Queue err w task)) = 1%nat
       /\ xa_Stream a = streamName (opts w)
       /\ xa_MaxLen a = maxLength (opts w)
       /\ xa_Values a = {[ "body" := IString body ]}
       /\ dom (xa_Values a) = ({[ "body" ]} : gset string)
       /\ StrToBytes body = Bytes task).
Proof.
  unfold Queue, LoadInt32, queue. split.
  - intros ->. simpl. split; reflexivity.
  - intros Hne. apply Z.eqb_neq in Hne. rewrite Hne.
    eexists _, (BytesToStr (Bytes task)). simpl.
    repeat split; try reflexivity.
    apply list_byte_of_string_of_list_byte.
Qed.

(** ** The consumer loop *)

Lemma occurrences_app (id : string) (a b : list XMessage) :
  occurrences id (a ++ b) = (occurrences id a + occurrences id b)%nat.
Proof.
  induction a as [|m a IH]; simpl; [reflexivity|]. rewrite IH. lia.
Qed.

Lemma occurrences_not_In (id : string) (ms : list XMessage) :
  ~ In id (map ID ms) -> occurrences id ms = 0%nat.
Proof.
  induction ms as [|m ms IH]; simpl; [reflexivity|].
  intros Hn. destruct (String.eqb_spec (ID m) id) as [Heq|_].
  - exfalso. apply Hn. now left.
  - rewrite IH; [reflexivity|]. intros Hin. apply Hn. now right.
Qed.

Lemma NoDup_occurrences (id : string) (ms : list XMessage) :
  NoDup (map ID ms) -> (occurrences id ms <= 1)%nat.
Proof.
  induction ms as [|m ms IH]; simpl; [lia|].
  intros Hnd. apply NoDup_cons in Hnd as [Hnotin Hnd].
  specialize (IH Hnd).
  destruct (String.eqb_spec (ID m) id) as [Heq|_]; [|lia].
  rewrite occurrences_not_In; [lia|].
  rewrite <- Heq. intros Hin. apply Hnotin. now apply list_elem_of_In.
Qed.

Lemma entries_read_app (a b : list event) :
  entries_read (a ++ b) = entries_read a ++ entries_read b.
Proof.
  induction a as [|e a IH]; simpl; [reflexivity|].
  destruct e as [| ? ? [?|] | | | | | | | | | |]; simpl; rewrite ?IH;
    try reflexivity.
  now rewrite app_assoc.
Qed.

(** The three kinds of ending of a select on one entry exclude each other. *)
Lemma count_select_split (id : string) (tr : list event) :
  (count (is_delivery_of id) tr + count (is_stop_select_of id) tr
   <= count (is_select_of id) tr)%nat.
Proof.
  induction tr as [|e tr IH]; simpl; [lia|].
  destruct e as [| | | |m [| |]| | | | | | |]; simpl; try lia;
    destruct (String.eqb (ID m) id); lia.
Qed.

Lemma count_stop_select_of_le (id : string) (tr : list event) :
  (count (is_stop_select_of id) tr <= count is_stop_select tr)%nat.
Proof.
  induction tr as [|e tr IH]; simpl; [lia|].
  destruct e as [| | | |m [| |]| | | | | | |]; simpl; try lia;
    destruct (String.eqb (ID m) id); lia.
Qed.

Lemma loop_facts_nil (w : Worker) (k : option (run exit_point)) :
  k <> Some (Done ExitRequeue) -> loop_facts w [] [] k.
Proof.
  intros Hk. split; simpl; try reflexivity; try lia; try tauto.
  destruct k as [[[]| |]|]; try reflexivity. congruence.
Qed.

Lemma loop_facts_app (w : Worker) (ms1 ms2 : list XMessage)
    (tr1 tr2 : list event) (k : option (run exit_point)) :
  loop_facts w ms1 tr1 None -> loop_facts w ms2 tr2 k ->
  loop_facts w (ms1 ++ ms2) (tr1 ++ tr2) k.
Proof.
  intros [A1 S1 X1 C1 T1 V1 _] [A2 S2 X2 C2 T2 V2 L2].
  split.
  - intros id. rewrite !count_app, A1, A2. reflexivity.
  - intros id. rewrite count_app, occurrences_app.
    specialize (S1 id). specialize (S2 id). lia.
  - rewrite !count_app. lia.
  - rewrite !count_app. lia.
  - rewrite count_app, T1, T2. reflexivity.
  - intros m Hin. apply in_app_or in Hin as [Hin|Hin].
    + destruct (V1 m Hin) as [err He]. exists err. apply in_or_app. now left.
    + destruct (V2 m Hin) as [err He]. exists err. apply in_or_app. now right.
  - intros Hk. destruct (L2 Hk) as [tr' ->]. exists (tr1 ++ tr').
    now rewrite app_assoc.
Qed.

(** Entries that were read but not offered change nothing. *)
Lemma loop_facts_more (w : Worker) (ms extra : list XMessage)
    (tr : list event) (k : option (run exit_point)) :
  loop_facts w ms tr k -> loop_facts w (ms ++ extra) tr k.
Proof.
  intros [A S X C T V L]. split; try assumption.
  intros id. rewrite occurrences_app. specialize (S id). lia.
Qed.

Lemma handoff_facts (w : Worker) (h : handoff_env) (m : XMessage) :
  loop_facts w [m] (fst (handoff w h m)) (snd (handoff w h m)).
Proof.
  unfold handoff, queue, requeue_of.
  destruct h as [[| |] [e|]]; simpl; split; simpl;
    try reflexivity; try (intros id; destruct (String.eqb (ID m) id); lia);
    try (intros m' Hin;
         repeat (destruct Hin as [Hin|Hin]; try discriminate Hin));
    try discriminate; try tauto.
  - injection Hin as ->. eexists. right. right. left. reflexivity.
  - intros _.
    exists [EvSelect m StopSignalled; EvLog (LogRequeue (ID m));
            EvXAdd (mkXAddArgs (streamName (opts w)) (maxLength (opts w)) (Values m))
              (Some e);
            EvLog (LogRequeueFailed (ID m))].
    reflexivity.
  - injection Hin as ->. eexists. right. right. left. reflexivity.
  - intros _.
    exists [EvSelect m StopSignalled; EvLog (LogRequeue (ID m));
            EvXAdd (mkXAddArgs (streamName (opts w)) (maxLength (opts w)) (Values m))
              None].
    reflexivity.
Qed.

Lemma range_messages_facts (w : Worker) (ms : list XMessage) :
  forall hs,
    loop_facts w ms (fst (fst (range_messages w ms hs)))
      (snd (fst (range_messages w ms hs))).
Proof.
  induction ms as [|m ms IH]; intros hs; simpl.
  - apply loop_facts_nil. discriminate.
  - destruct hs as [|h hs]; simpl.
    + apply (loop_facts_more w [] (m :: ms)). apply loop_facts_nil. discriminate.
    + pose proof (handoff_facts w h m) as Hh.
      destruct (handoff w h m) as [tr [r|]]; simpl in *.
      * apply (loop_facts_more w [m] ms). exact Hh.
      * specialize (IH hs).
        destruct (range_messages w ms hs) as [[tr' k'] hs'']; simpl in *.
        apply (loop_facts_app w [m] ms); assumption.
Qed.

Lemma range_data_facts (w : Worker) (data : list XStream) :
  forall hs,
    loop_facts w (flat_messages data) (fst (fst (range_data w data hs)))
      (snd (fst (range_data w data hs))).
Proof.
  unfold flat_messages.
  induction data as [|result data IH]; intros hs; simpl.
  - apply loop_facts_nil. discriminate.
  - pose proof (range_messages_facts w (Messages result) hs) as Hm.
    destruct (range_messages w (Messages result) hs) as [[tr [r|]] hs'];
      simpl in *.
    + apply loop_facts_more. exact Hm.
    + specialize (IH hs').
      destruct (range_data w data hs') as [[tr' k'] hs'']; simpl in *.
      apply loop_facts_app; assumption.
Qed.

(** The handoff makes no read, and of the two [return]s it can only reach
    the one of the requeue. *)
Lemma handoff_shape (w : Worker) (h : handoff_env) (m : XMessage) :
  entries_read (fst (handoff w h m)) = []
  /\ snd (handoff w h m) <> Some (Done ExitStopCheck)
  /\ (snd (handoff w h m) = None -> fired h = Delivered)
  /\ (forall msg, snd (handoff w h m) = Some (Panicked msg) -> fired h = TasksClosed)
  /\ snd (handoff w h m) <> Some Blocked.
Proof.
  unfold handoff, queue.
  destruct h as [[| |] [e|]]; simpl; repeat split; congruence.
Qed.

Lemma range_messages_shape (w : Worker) (ms : list XMessage) :
  forall hs,
    entries_read (fst (fst (range_messages w ms hs))) = []
    /\ snd (fst (range_messages w ms hs)) <> Some (Done ExitStopCheck).
Proof.
  induction ms as [|m ms IH]; intros hs; simpl; [split; [reflexivity|discriminate]|].
  destruct hs as [|h hs]; simpl; [split; [reflexivity|discriminate]|].
  destruct (handoff_shape w h m) as (Hr & Hk & _).
  destruct (handoff w h m) as [tr [r|]]; simpl in *; [split; assumption|].
  destruct (IH hs) as [Hr' Hk'].
  destruct (range_messages w ms hs) as [[tr' k'] hs'']; simpl in *.
  split; [|assumption].
  rewrite entries_read_app, Hr, Hr'. reflexivity.
Qed.

Lemma range_data_shape (w : Worker) (data : list XStream) :
  forall hs,
    entries_read (fst (fst (range_data w data hs))) = []
    /\ snd (fst (range_data w data hs)) <> Some (Done ExitStopCheck).
Proof.
  induction data as [|result data IH]; intros hs; simpl;
    [split; [reflexivity|discriminate]|].
  destruct (range_messages_shape w (Messages result) hs) as [Hr Hk].
  destruct (range_messages w (Messages result) hs) as [[tr [r|]] hs'];
    simpl in *; [split; assumption|].
  destruct (IH hs') as [Hr' Hk'].
  destruct (range_data w data hs') as [[tr' k'] hs'']; simpl in *.
  split; [|assumption].
  rewrite entries_read_app, Hr, Hr'. reflexivity.
Qed.

Lemma iteration_facts (w : Worker) (e : iteration_env) :
  loop_facts w (entries_read (fst (iteration w e))) (fst (iteration w e))
    (snd (iteration w e)).
Proof.
  unfold iteration.
  destruct (stop_ready e); simpl; [apply loop_facts_nil; discriminate|].
  destruct (read_err e) as [err|] eqn:Herr; simpl.
  - split; simpl; try reflexivity; try lia; try discriminate.
    intros m [H|[H|[]]]; discriminate H.
  - pose proof (range_data_facts w (read_data e) (handoffs e)) as Hf.
    destruct (range_data_shape w (read_data e) (handoffs e)) as [Hr _].
    destruct (range_data w (read_data e) (handoffs e)) as [[tr k] hs'];
      simpl in *.
    rewrite Hr, app_nil_r.
    destruct Hf as [A S X C T V L]. split; simpl; try assumption.
    + intros m [H|H]; [discriminate H|].
      destruct (V m H) as [err He]. exists err. now right.
    + intros Hk. destruct (L Hk) as [tr' ->].
      exists (EvXReadGroup (read_args w) (read_data e) None :: tr'). reflexivity.
Qed.

Lemma fetchTask_facts (w : Worker) (env : list iteration_env) :
  loop_facts w (entries_read (fst (fetchTask w env))) (fst (fetchTask w env))
    (Some (snd (fetchTask w env))).
Proof.
  induction env as [|e env IH]; simpl.
  - apply loop_facts_nil. discriminate.
  - pose proof (iteration_facts w e) as He.
    destruct (iteration w e) as [tr [r|]]; simpl in *; [exact He|].
    destruct (fetchTask w env) as [tr' r']; simpl in *.
    rewrite entries_read_app. apply loop_facts_app; assumption.
Qed.

Lemma range_messages_app (w : Worker) (a b : list XMessage) :
  forall hs,
    range_messages w (a ++ b) hs
    = let '(tr, k, hs') := range_messages w a hs in
      match k with
      | Some r => (tr, Some r, hs')
      | None =>
          let '(tr', k', hs'') := range_messages w b hs' in
          (tr ++ tr', k', hs'')
      end.
Proof.
  induction a as [|m a IH]; intros hs; simpl.
  - destruct (range_messages w b hs) as [[tr' k'] hs'']. reflexivity.
  - destruct hs as [|h hs]; [reflexivity|].
    destruct (handoff w h m) as [tr [r|]]; [reflexivity|].
    rewrite IH.
    destruct (range_messages w a hs) as [[tr1 [r1|]] hs1]; [reflexivity|].
    destruct (range_messages w b hs1) as [[tr2 k2] hs2].
    now rewrite app_assoc.
Qed.

(** The nested [range] loops are one loop over the entries of the result. *)
Lemma range_data_flat (w : Worker) (data : list XStream) :
  forall hs, range_data w data hs = range_messages w (flat_messages data) hs.
Proof.
  unfold flat_messages.
  induction data as [|result data IH]; intros hs; simpl; [reflexivity|].
  rewrite range_messages_app.
  destruct (range_messages w (Messages result) hs) as [[tr [r|]] hs'];
    [reflexivity|].
  rewrite IH. reflexivity.
Qed.

(** When the store honours [Count: 1], every entry the loop has read has
    been offered, and its select has ended unless the loop is still
    blocked in it. *)
Lemma fetchTask_one_entry_reads (w : Worker) (env : list iteration_env) :
  Forall (count_respected w) env ->
  forall m,
    In m (entries_read (fst (fetchTask w env))) ->
    (exists c, In (EvSelect m c) (fst (fetchTask w env)))
    \/ snd (fetchTask w env) = Blocked.
Proof.
  induction env as [|e env IH]; intros Hall m; simpl; [tauto|].
  apply Forall_cons in Hall as [He Hall]. specialize (IH Hall m).
  assert (Hit :
    forall m', In m' (entries_read (fst (iteration w e))) ->
      (exists c, In (EvSelect m' c) (fst (iteration w e)))
      \/ snd (iteration w e) = Some Blocked).
  { unfold iteration. destruct (stop_ready e); simpl; [tauto|].
    destruct (read_err e) as [err|]; simpl; [tauto|].
    rewrite range_data_flat.
    unfold count_respected in He. simpl in He.
    destruct (range_messages w (flat_messages (read_data e)) (handoffs e))
      as [[tr k] hs'] eqn:Hrm; simpl.
    destruct (flat_messages (read_data e)) as [|m0 [|m1 ms]];
      simpl in He; try lia; simpl in Hrm.
    - injection Hrm as <- <- <-. simpl. tauto.
    - destruct (handoffs e) as [|h hs]; [injection Hrm as <- <- <-; now right|].
      intros m' Hin. left. exists (fired h).
      assert (m' = m0) as ->.
      { simpl in Hin. destruct Hin as [<-|Hin]; [reflexivity|].
        exfalso. revert Hrm Hin. unfold handoff, queue.
        destruct (fired h); simpl; intros [= <- <- <-];
          destruct (store_err h); simpl; tauto. }
      right. revert Hrm. unfold handoff, queue.
      destruct (fired h); simpl; intros [= <- <- <-]; now left. }
  destruct (iteration w e) as [tr [r|]]; simpl in *.
  - intros Hin. destruct (Hit m Hin) as [H|H]; [now left|].
    right. now injection H.
  - destruct (fetchTask w env) as [tr' r']; simpl in *.
    rewrite entries_read_app. intros Hin.
    apply in_app_or in Hin as [Hin|Hin].
    + destruct (Hit m Hin) as [[c Hc]|H]; [|discriminate H].
      left. exists c. apply in_or_app. now left.
    + destruct (IH Hin) as [[c Hc]|H]; [|now right].
      left. exists c. apply in_or_app. now right.
Qed.

Lemma count_le_impl (p q : event -> bool) (tr : list event) :
  (forall e, p e = true -> q e = true) -> (count p tr <= count q tr)%nat.
Proof.
  intros Himp. induction tr as [|e tr IH]; simpl; [lia|].
  destruct (p e) eqn:Hp; [rewrite (Himp e Hp)|destruct (q e)]; lia.
Qed.

Lemma count_pos_In (p : event -> bool) (tr : list event) :
  (1 <= count p tr)%nat -> exists e, In e tr /\ p e = true.
Proof.
  induction tr as [|e tr IH]; simpl; [lia|].
  destruct (p e) eqn:Hp.
  - intros _. exists e. split; [now left|exact Hp].
  - intros H. destruct (IH H) as (e' & Hin & Hp'). exists e'. split; auto.
Qed.

(** An event of a kind that occurs once is the only one of its kind. *)
Lemma count_one_unique (p : event -> bool) (tr : list event) (e1 e2 : event) :
  count p tr = 1%nat -> In e1 tr -> In e2 tr ->
  p e1 = true -> p e2 = true -> e1 = e2.
Proof.
  induction tr as [|e tr IH]; simpl; [tauto|].
  intros Hc H1 H2 Hp1 Hp2. destruct (p e) eqn:Hp.
  - assert (Hz : count p tr = 0%nat) by lia.
    destruct H1 as [<-|H1]; [|exfalso; exact (count_zero_not_In p tr e1 Hz Hp1 H1)].
    destruct H2 as [<-|H2]; [reflexivity|].
    exfalso. exact (count_zero_not_In p tr e2 Hz Hp2 H2).
  - destruct H1 as [->|H1]; [congruence|].
    destruct H2 as [->|H2]; [congruence|].
    apply IH; auto.
Qed.

Lemma answers_logged_app (w : Worker) (a b : list event) :
  answers_logged w a -> answers_logged w b -> answers_logged w (a ++ b).
Proof.
  intros [Ha1 Ha2] [Hb1 Hb2]. split; intros m Hin;
    apply in_app_or in Hin as [Hin|Hin].
  - destruct (Ha1 m Hin) as (err & He & Hl). exists err.
    split; [apply in_or_app; now left|].
    intros Hne. apply in_or_app. left. auto.
  - destruct (Hb1 m Hin) as (err & He & Hl). exists err.
    split; [apply in_or_app; now right|].
    intros Hne. apply in_or_app. right. auto.
  - destruct (Ha2 m Hin) as (err & He & Hl). exists err.
    split; [apply in_or_app; now left|].
    intros Hne. apply in_or_app. left. auto.
  - destruct (Hb2 m Hin) as (err & He & Hl). exists err.
    split; [apply in_or_app; now right|].
    intros Hne. apply in_or_app. right. auto.
Qed.

Lemma answers_logged_nil (w : Worker) : answers_logged w [].
Proof. split; intros m []. Qed.

Lemma handoff_answers (w : Worker) (h : handoff_env) (m : XMessage) :
  answers_logged w (fst (handoff w h m)).
Proof.
  unfold handoff, queue, requeue_of.
  destruct h as [[| |] [e|]]; simpl; split; intros m' Hin;
    repeat (destruct Hin as [Hin|Hin]; try discriminate Hin);
    try contradiction; injection Hin as ->.
  - exists (Some e). split; [right; now left|]. intros _. right. right. now left.
  - exists None. split; [right; now left|]. congruence.
  - exists (Some e). split; [right; right; now left|].
    intros _. right. right. right. now left.
  - exists None. split; [right; right; now left|]. congruence.
Qed.

Lemma range_messages_answers (w : Worker) (ms : list XMessage) :
  forall hs, answers_logged w (fst (fst (range_messages w ms hs))).
Proof.
  induction ms as [|m ms IH]; intros hs; simpl; [apply answers_logged_nil|].
  destruct hs as [|h hs]; simpl; [apply answers_logged_nil|].
  pose proof (handoff_answers w h m) as Hh.
  destruct (handoff w h m) as [tr [r|]]; simpl in *; [exact Hh|].
  specialize (IH hs).
  destruct (range_messages w ms hs) as [[tr' k'] hs'']; simpl in *.
  apply answers_logged_app; assumption.
Qed.

Lemma fetchTask_answers (w : Worker) (env : list iteration_env) :
  answers_logged w (fst (fetchTask w env)).
Proof.
  induction env as [|e env IH]; simpl; [apply answers_logged_nil|].
  assert (He : answers_logged w (fst (iteration w e))).
  { unfold iteration. destruct (stop_ready e); simpl; [apply answers_logged_nil|].
    destruct (read_err e) as [err|]; simpl.
    - split; intros m [H|[H|[]]]; discriminate H.
    - rewrite range_data_flat.
      pose proof (range_messages_answers w (flat_messages (read_data e))
                    (handoffs e)) as Hm.
      destruct (range_messages w (flat_messages (read_data e)) (handoffs e))
        as [[tr k] hs']. simpl in *.
      apply (answers_logged_app w [EvXReadGroup (read_args w) (read_data e) None]);
        [|exact Hm].
      split; intros m [H|[]]; discriminate H. }
  destruct (iteration w e) as [tr [r|]]; simpl in *; [exact He|].
  destruct (fetchTask w env) as [tr' r']; simpl in *.
  apply answers_logged_app; assumption.
Qed.

(** C1, as stated, fails on a run in which every read returns one entry.
    [Shutdown] closes [tasks] once its grace period is over, whether or not
    the loop has returned; a loop that was in [XReadGroup] meanwhile and
    comes back with an entry offers it on the closed channel, and the send
    panics.  The entry was read, and it is neither handed off nor requeued:
    no [XAck] and no [XAdd] is issued at all. *)
Lemma fetchTask_entry_lost_on_closed_channel :
  let tr := fst (fetchTask example_worker tasks_closed_before_handoff) in
  Forall (count_respected example_worker) tasks_closed_before_handoff
  /\ snd (fetchTask example_worker tasks_closed_before_handoff)
     = Panicked "send on closed channel"
  /\ NoDup (map ID (entries_read tr))
  /\ In entry_1 (entries_read tr)
  /\ count (is_xack_of (ID entry_1)) tr = 0%nat
  /\ count is_xadd tr = 0%nat
  /\ ~ entry_fate example_worker entry_1 tr.
Proof.
  cbv zeta. split.
  { repeat constructor. unfold count_respected. simpl. lia. }
  split; [reflexivity|]. split.
  { apply (bool_decide_unpack _). vm_compute. exact I. }
  split; [left; reflexivity|]. split; [reflexivity|]. split; [reflexivity|].
  intros [(H & _)|(H & _)]; vm_compute in H; discriminate H.
Qed.

(** C1, amended.  In every run of the consumer loop in which the entries
    read have distinct IDs: an [XAck] call is issued for an ID exactly as
    often as an entry with that ID is handed off, and at most once; the run
    makes at most one [XAdd] call; and every entry whose handoff select
    ends on one of its two cases meets exactly one fate.  If a receiver
    took it, it is handed off once and one [XAck] call is issued for it, on
    the configured stream and group: the entry is acknowledged, once, when
    the store accepts that call, and otherwise it is not acknowledged and
    the failure is logged; no [XAdd] is made for it.  If [stop] was closed,
    the one [XAdd] call of the run carries its field map: the entry is
    re-submitted when the store accepts that call, and otherwise the
    failure is logged; it is never handed off, no [XAck] is issued for it,
    and the loop returns. *)
Theorem fetchTask_offered_entry_fate (w : Worker) (env : list iteration_env) :
  let tr := fst (fetchTask w env) in
  NoDup (map ID (entries_read tr)) ->
  (forall id,
      count (is_xack_of id) tr = count (is_delivery_of id) tr
      /\ (count (is_xack_of id) tr <= 1)%nat)
  /\ (count is_xadd tr <= 1)%nat
  /\ (forall m c,
        In (EvSelect m c) tr -> c <> TasksClosed ->
        (c = Delivered
         /\ handed_off_fate w m tr
         /\ ~ stopped_one_xadd w m tr)
        \/ (c = StopSignalled
            /\ requeue_fate w m tr
            /\ ~ handed_off_one_xack m tr
            /\ snd (fetchTask w env) = Done ExitRequeue)).
Proof.
  intros tr Hnd.
  destruct (fetchTask_facts w env) as [A S X C T V L]. fold tr in A, S, X, C, T, V.
  destruct (fetchTask_answers w env) as [Lack Ladd]. fold tr in Lack, Ladd.
  assert (Hone : forall id, (count (is_select_of id) tr <= 1)%nat).
  { intros id. pose proof (S id). pose proof (NoDup_occurrences id _ Hnd). lia. }
  assert (Hstop : (count is_stop_select tr <= 1)%nat).
  { rewrite T. destruct (snd (fetchTask w env)) as [[]| |]; lia. }
  assert (Hacc : forall id,
            (count (is_accepted_xack_of id) tr <= count (is_xack_of id) tr)%nat).
  { intros id. apply count_le_impl.
    intros [| |s g i [e|]| | | | | | | | |]; simpl; congruence. }
  split; [|split].
  - intros id. split; [apply A|]. rewrite A.
    pose proof (count_select_split id tr). pose proof (Hone id). lia.
  - lia.
  - intros m c Hin Hc.
    pose proof (count_select_split (ID m) tr) as Hsplit.
    pose proof (Hone (ID m)) as H1.
    pose proof (Hacc (ID m)) as Hle.
    destruct c; [left|right|congruence].
    + assert (Hd : (1 <= count (is_delivery_of (ID m)) tr)%nat).
      { apply (count_In _ _ _ Hin). simpl. apply String.eqb_refl. }
      assert (Hx : count (is_xack_of (ID m)) tr = 1%nat) by (rewrite A; lia).
      split; [reflexivity|]. split; [|intros (Hs & _); lia].
      split; [unfold handed_off_one_xack; rewrite A; lia|].
      destruct (Lack m Hin) as (err & He & Hlog).
      assert (Hp : is_xack_of (ID m)
                     (EvXAck (streamName (opts w)) (group (opts w)) (ID m) err)
                   = true) by (simpl; apply String.eqb_refl).
      exists err. split; [exact He|]. split.
      * intros s g e Hin'. apply (count_one_unique _ _ _ _ Hx Hin' He); [|exact Hp].
        simpl. apply String.eqb_refl.
      * unfold acknowledgements. destruct err as [e|].
        -- split; [|apply Hlog; discriminate].
           destruct (count (is_accepted_xack_of (ID m)) tr) as [|n] eqn:Hn;
             [reflexivity|].
           destruct (count_pos_In (is_accepted_xack_of (ID m)) tr)
             as (e' & Hin' & Hp'); [lia|].
           assert (Hq : is_xack_of (ID m) e' = true).
           { destruct e' as [| |s g i [e0|]| | | | | | | | |]; simpl in *;
               congruence. }
           pose proof (count_one_unique _ _ _ _ Hx Hin' He Hq Hp) as ->.
           discriminate Hp'.
        -- assert ((1 <= count (is_accepted_xack_of (ID m)) tr)%nat); [|lia].
           apply (count_In _ _ _ He). simpl. apply String.eqb_refl.
    + assert (Hs : (1 <= count (is_stop_select_of (ID m)) tr)%nat).
      { apply (count_In _ _ _ Hin). simpl. apply String.eqb_refl. }
      pose proof (count_stop_select_of_le (ID m) tr) as Hle'.
      assert (Hxa : count is_xadd tr = 1%nat) by lia.
      split; [reflexivity|]. split; [|split].
      * split; [|split].
        -- unfold stopped_one_xadd. rewrite A.
           repeat split; try lia. apply V. exact Hin.
        -- unfold acknowledgements. rewrite A in Hle. lia.
        -- destruct (Ladd m Hin) as (err & He & Hlog).
           exists err. split; [exact He|]. split.
           ++ intros a e Hin'.
              apply (count_one_unique _ _ _ _ Hxa Hin' He); reflexivity.
           ++ destruct err; [apply Hlog; discriminate|exact I].
      * intros (Hd & _). lia.
      * destruct (snd (fetchTask w env)) as [[]| |]; try reflexivity; lia.
Qed.

(** In [two_delivered_then_stop] the second entry is handed off and one
    [XAck] is issued for it; the store rejects the call, so the entry is
    not acknowledged and the failure is logged. *)
Lemma fetchTask_offered_entry_fate_witness :
  NoDup (map ID (entries_read
                   (fst (fetchTask example_worker two_delivered_then_stop))))
  /\ handed_off_fate example_worker entry_2
       (fst (fetchTask example_worker two_delivered_then_stop)).
Proof.
  assert (Hnd : NoDup (map ID (entries_read
                   (fst (fetchTask example_worker two_delivered_then_stop))))).
  { apply (bool_decide_unpack _). vm_compute. exact I. }
  split; [exact Hnd|].
  destruct (fetchTask_offered_entry_fate example_worker two_delivered_then_stop Hnd)
    as (_ & _ & H).
  destruct (H entry_2 Delivered) as [(_ & Hd & _)|(Hc & _)].
  - vm_compute. right. right. right. right. right. right. left. reflexivity.
  - discriminate.
  - exact Hd.
  - discriminate Hc.
Defined.

Lemma iteration_stop_check (w : Worker) (e : iteration_env) :
  snd (iteration w e) = Some (Done ExitStopCheck) <-> stop_ready e = true.
Proof.
  unfold iteration. destruct (stop_ready e); simpl; [tauto|].
  split; [|discriminate].
  destruct (read_err e); simpl; [discriminate|].
  destruct (range_data_shape w (read_data e) (handoffs e)) as [_ Hk].
  destruct (range_data w (read_data e) (handoffs e)) as [[tr k] hs']; simpl in *.
  intros H. contradiction.
Qed.

Lemma stop_select_In (tr : list event) :
  (1 <= count is_stop_select tr)%nat -> exists m, In (EvSelect m StopSignalled) tr.
Proof.
  induction tr as [|e tr IH]; simpl; [lia|].
  destruct e as [| | | |m [| |]| | | | | | |]; simpl; intros H;
    try (destruct (IH H) as [m' Hm]; exists m'; now right).
  exists m. now left.
Qed.

(** C4, as stated, fails: when [stop] is closed before an iteration begins,
    the loop returns at the stop check that opens the iteration, and the
    completion signal [exit] is not closed.  Here after one delivery. *)
Lemma fetchTask_returns_without_closing_exit :
  let env := [mkIteration false [mkXStream "golang-queue" [entry_1]] None
                [mkHandoff Delivered None];
              mkIteration true [] None []] in
  snd (fetchTask example_worker env) = Done ExitStopCheck
  /\ count (is_close ChExit) (fst (fetchTask example_worker env)) = 0%nat
  /\ ~ In (EvClose ChExit) (fst (fetchTask example_worker env)).
Proof.
  cbv zeta. split; [reflexivity|]. split; [reflexivity|].
  apply (count_zero_not_In (is_close ChExit)); reflexivity.
Qed.

(** The consumer loop has two exit points, and it reaches either only
    once [stop] is closed.  When it returns at the stop check
    that opens an iteration, that check found [stop] closed, every earlier
    one found it open, and [exit] is not closed.  When it returns from the
    stop case of the handoff select, it has closed [exit] exactly once, as
    its last effect. *)
Lemma fetchTask_returns_after_stop (w : Worker) (env : list iteration_env)
    (p : exit_point) :
  snd (fetchTask w env) = Done p ->
  let tr := fst (fetchTask w env) in
  match p with
  | ExitStopCheck =>
      (exists before e after,
          env = before ++ e :: after
          /\ stop_ready e = true
          /\ Forall (fun e' => stop_ready e' = false) before)
      /\ count (is_close ChExit) tr = 0%nat
  | ExitRequeue =>
      (exists m, In (EvSelect m StopSignalled) tr)
      /\ count (is_close ChExit) tr = 1%nat
      /\ exists tr', tr = tr' ++ [EvClose ChExit]
  end.
Proof.
  intros Hp tr.
  destruct (fetchTask_facts w env) as [_ _ _ C T _ L].
  fold tr in C, T, L. rewrite Hp in T, L.
  destruct p.
  - split; [|lia]. clear C T L tr.
    induction env as [|e env IH]; simpl in Hp; [discriminate|].
    pose proof (iteration_stop_check w e) as Hs.
    destruct (iteration w e) as [tr [r|]]; simpl in *.
    + subst r. exists [], e, env. repeat split; [tauto|constructor].
    + destruct (fetchTask w env) as [tr' r']; simpl in *.
      destruct (IH Hp) as (before & e' & after & -> & Hr & Hall).
      exists (e :: before), e', after. repeat split; [assumption|].
      constructor; [|assumption].
      destruct (stop_ready e); [|reflexivity].
      destruct Hs as [_ Hs]. discriminate (Hs eq_refl).
  - split; [apply stop_select_In; lia|]. split; [lia|]. apply L. reflexivity.
Qed.

(** C4, amended.  The consumer loop has two exit points, and it reaches
    either only once [stop] is closed.  When it returns at the stop check
    that opens an iteration, that check found [stop] closed, every earlier
    one found it open, and [exit] is not closed.  When it returns from the
    stop case of the handoff select, it has closed [exit] exactly once, as
    its last effect. *)
Theorem fetchTask_exit_points (w : Worker) (env : list iteration_env)
    (p : exit_point) :
  snd (fetchTask w env) = Done p ->
  let tr := fst (fetchTask w env) in
  match p with
  | ExitStopCheck =>
      (exists before e after,
          env = before ++ e :: after
          /\ stop_ready e = true
          /\ Forall (fun e' => stop_ready e' = false) before)
      /\ count (is_close ChExit) tr = 0%nat
  | ExitRequeue =>
      (exists m, In (EvSelect m StopSignalled) tr)
      /\ count (is_close ChExit) tr = 1%nat
      /\ exists tr', tr = tr' ++ [EvClose ChExit]
  end.
Proof. exact (fetchTask_returns_after_stop w env p). Qed.

(** A run that ends in the stop case of the handoff closes [exit] last. *)
Lemma fetchTask_exit_points_witness :
  exists tr',
    fst (fetchTask example_worker two_delivered_then_stop)
    = tr' ++ [EvClose ChExit].
Proof.
  apply (fetchTask_exit_points example_worker two_delivered_then_stop ExitRequeue).
  reflexivity.
Defined.

Lemma range_messages_delivered (w : Worker) (ms : list XMessage) :
  forall hs,
    Forall (fun h => fired h = Delivered) hs ->
    (snd (fst (range_messages w ms hs)) = None
     \/ snd (fst (range_messages w ms hs)) = Some Blocked)
    /\ Forall (fun h => fired h = Delivered) (snd (range_messages w ms hs)).
Proof.
  induction ms as [|m ms IH]; intros hs Hall; simpl; [split; [now left|assumption]|].
  destruct hs as [|h hs]; simpl; [split; [now right|constructor]|].
  apply Forall_cons in Hall as [Hh Hall].
  unfold handoff. rewrite Hh.
  specialize (IH hs Hall).
  destruct (range_messages w ms hs) as [[tr' k'] hs'']; simpl in *.
  exact IH.
Qed.

Lemma range_data_delivered (w : Worker) (data : list XStream) :
  forall hs,
    Forall (fun h => fired h = Delivered) hs ->
    snd (fst (range_data w data hs)) = None
    \/ snd (fst (range_data w data hs)) = Some Blocked.
Proof.
  induction data as [|result data IH]; intros hs Hall; simpl; [now left|].
  destruct (range_messages_delivered w (Messages result) hs Hall) as [Hk Hall'].
  destruct (range_messages w (Messages result) hs) as [[tr k] hs']; simpl in *.
  destruct Hk as [->| ->]; [|now right].
  specialize (IH hs' Hall').
  destruct (range_data w data hs') as [[tr' k'] hs'']; simpl in *.
  exact IH.
Qed.

(** C8.  A group-read error and an ack failure leave the loop running.  On
    a read error, the benign [redis.Nil] included, the iteration only logs:
    nothing is offered, acknowledged or added, and the loop goes on with the
    next iteration.  On an ack failure after a handoff the failure is
    logged and the loop goes on.  Whatever the store answers, a loop that
    never sees [stop] closed is still running; and a loop that has
    returned has seen [stop] closed, at the stop check or in the handoff
    select. *)
Theorem fetchTask_store_errors_do_not_end_loop (w : Worker) :
  (forall e err env,
      stop_ready e = false -> read_err e = Some err ->
      let logged :=
        [EvXReadGroup (read_args w) (read_data e) (Some err);
         EvLog (if is_redis_Nil err then LogNoData else LogReadError err)] in
      iteration w e = (logged, None)
      /\ fetchTask w (e :: env)
         = (logged ++ fst (fetchTask w env), snd (fetchTask w env)))
  /\ (forall m err,
        handoff w (mkHandoff Delivered (Some err)) m
        = ([EvSelect m Delivered;
            EvXAck (streamName (opts w)) (group (opts w)) (ID m) (Some err);
            EvLog (LogCantAck (ID m))],
           None))
  /\ (forall env, Forall stop_unseen env -> snd (fetchTask w env) = Blocked)
  /\ (forall env p,
        snd (fetchTask w env) = Done p ->
        (exists e, In e env /\ stop_ready e = true)
        \/ (exists m, In (EvSelect m StopSignalled) (fst (fetchTask w env)))).
Proof.
  split; [|split; [|split]].
  - intros e err env Hs He logged.
    assert (Hit : iteration w e = (logged, None)).
    { unfold iteration. rewrite Hs, He. reflexivity. }
    split; [exact Hit|].
    simpl. rewrite Hit. destruct (fetchTask w env) as [tr r]. reflexivity.
  - reflexivity.
  - induction env as [|e env IH]; intros Hall; simpl; [reflexivity|].
    apply Forall_cons in Hall as [[Hs Hh] Hall].
    specialize (IH Hall).
    unfold iteration. rewrite Hs.
    destruct (read_err e) as [err|].
    + destruct (fetchTask w env) as [tr r]. exact IH.
    + pose proof (range_data_delivered w (read_data e) (handoffs e) Hh) as Hk.
      destruct (range_data w (read_data e) (handoffs e)) as [[tr k] hs'];
        simpl in *.
      destruct Hk as [->| ->]; [|reflexivity].
      destruct (fetchTask w env) as [tr' r]. exact IH.
  - intros env p Hp.
    pose proof (fetchTask_returns_after_stop w env p Hp) as Hx.
    destruct p; simpl in Hx.
    + left. destruct Hx as [(before & e & after & -> & Hr & _) _].
      exists e. split; [|exact Hr]. apply in_or_app. right. now left.
    + right. apply Hx.
Qed.

(** An empty read is only logged, and a failed read followed by a failed
    ack leaves the loop running. *)
Lemma fetchTask_store_errors_do_not_end_loop_witness :
  iteration example_worker (mkIteration false [] (Some redis_Nil) [])
  = ([EvXReadGroup (read_args example_worker) [] (Some redis_Nil); EvLog LogNoData],
     None)
  /\ snd (fetchTask example_worker
            [mkIteration false [] (Some (OtherError "connection refused")) [];
             mkIteration false [mkXStream "golang-queue" [entry_1]] None
               [mkHandoff Delivered (Some (OtherError "NOGROUP"))]])
     = Blocked.
Proof.
  destruct (fetchTask_store_errors_do_not_end_loop example_worker)
    as (Hread & _ & Hrun & _).
  split.
  - apply (Hread (mkIteration false [] (Some redis_Nil) []) redis_Nil []);
      reflexivity.
  - apply Hrun. repeat constructor.
Defined.

(** ** Request *)

Lemma startConsumer_no_recv (create_err : option error) (w : Worker)
    (m : option XMessage) :
  ~ In (EvRecv m) (snd (startConsumer create_err w)).
Proof.
  unfold startConsumer. destruct (startOnce w); simpl; [tauto|].
  destruct create_err as [err|]; simpl.
  - destruct (String.eqb _ _); simpl; intros [H|[H|[H|[]]]]; discriminate H.
  - intros [H|[H|[]]]; discriminate H.
Qed.

Lemma startConsumer_elapsed (create_err : option error) (w : Worker) :
  elapsed (snd (startConsumer create_err w)) = 0.
Proof.
  unfold startConsumer. destruct (startOnce w); simpl; [reflexivity|].
  destruct create_err as [err|]; simpl; [|reflexivity].
  destruct (String.eqb _ _); reflexivity.
Qed.

Section RequestFacts.
Context `{JM : JobMessage}.

Lemma Request_trace (create_err : option error) (polls : list poll) (w : Worker) :
  snd (fst (Request create_err polls w))
  = snd (startConsumer create_err w) ++ fst (Request_loop 0 polls)
  /\ snd (Request create_err polls w) = snd (Request_loop 0 polls).
Proof.
  unfold Request. destruct (startConsumer create_err w) as [w' started].
  destruct (Request_loop 0 polls) as [tr r]. split; reflexivity.
Qed.

(** What the loop does with the entry it receives. *)
Lemma Request_loop_received (polls : list poll) :
  forall clock task,
    In (EvRecv (Some task)) (fst (Request_loop clock polls)) ->
    match Values task !! "body" with
    | Some (IString body) =>
        snd (Request_loop clock polls)
        = Done (Some (fst (json_Unmarshal (StrToBytes body) zero_Message)), None)
    | _ => exists msg, snd (Request_loop clock polls) = Panicked msg
    end.
Proof.
  induction polls as [|p polls IH]; intros clock task; simpl; [tauto|].
  destruct p as [task'| |].
  - destruct (Values task' !! "body") as [[|body| | |]|] eqn:Hb;
      try destruct (json_Unmarshal (StrToBytes body) zero_Message)
        as [data e] eqn:Hdec;
      simpl; intros [H|[]]; injection H as <-; rewrite Hb; eauto.
    rewrite Hdec. reflexivity.
  - simpl. intros [H|[]]. discriminate H.
  - destruct (clock =? 5); simpl.
    + intros [H|[]]. discriminate H.
    + specialize (IH (wrap_int (clock + 1)) task).
      destruct (Request_loop (wrap_int (clock + 1)) polls) as [tr r]; simpl in *.
      intros [H|H]; [discriminate H|]. exact (IH H).
Qed.

Lemma Request_loop_closed (polls : list poll) :
  forall clock,
    In (EvRecv None) (fst (Request_loop clock polls)) ->
    snd (Request_loop clock polls) = Done (None, Some ErrQueueHasBeenClosed).
Proof.
  induction polls as [|p polls IH]; intros clock; simpl; [tauto|].
  destruct p as [task| |].
  - destruct (Values task !! "body") as [[|body| | |]|];
      try destruct (json_Unmarshal (StrToBytes body) zero_Message) as [data e];
      simpl; intros [H|[]]; discriminate H.
  - reflexivity.
  - destruct (clock =? 5); simpl.
    + intros [H|[]]. discriminate H.
    + specialize (IH (wrap_int (clock + 1))).
      destruct (Request_loop (wrap_int (clock + 1)) polls) as [tr r]; simpl in *.
      intros [H|H]; [discriminate H|]. exact (IH H).
Qed.

Lemma Request_received (create_err : option error) (polls : list poll)
    (w : Worker) (m : option XMessage) :
  In (EvRecv m) (snd (fst (Request create_err polls w))) ->
  In (EvRecv m) (fst (Request_loop 0 polls)).
Proof.
  destruct (Request_trace create_err polls w) as [-> _].
  intros H. apply in_app_or in H as [H|H]; [|exact H].
  now apply startConsumer_no_recv in H.
Qed.

End RequestFacts.

Section RequestClaims.
Context `{JM : JobMessage}.

Lemma Request_loop_six_timeouts (rest : list poll) :
  Request_loop 0 (replicate 6 TimedOut ++ rest)
  = (replicate 6 (EvAfter (1 * Second)), Done (None, Some ErrNoTaskInQueue)).
Proof. reflexivity. Qed.

Lemma Request_loop_timeouts_then (k : nat) (rest : list poll) :
  (k <= 5)%nat ->
  Request_loop 0 (replicate k TimedOut ++ rest)
  = (replicate k (EvAfter (1 * Second)) ++ fst (Request_loop (Z.of_nat k) rest),
     snd (Request_loop (Z.of_nat k) rest)).
Proof.
  intros Hk.
  do 6 (destruct k as [|k]; [simpl; destruct (Request_loop _ rest); reflexivity|]).
  lia.
Qed.

(** C3.  What the code does when nothing arrives and the channel stays
    open: it gives up on the sixth timeout, after six seconds, with
    [ErrNoTaskInQueue].  After five timeouts it is still polling, and an
    entry or a close that comes during the sixth wait is still taken. *)
Theorem Request_gives_up_on_sixth_timeout (create_err : option error)
    (w : Worker) (rest : list poll) :
  let six := Request create_err (replicate 6 TimedOut ++ rest) w in
  let five := Request create_err (replicate 5 TimedOut) w in
  snd six = Done (None, Some ErrNoTaskInQueue)
  /\ count (fun e => match e with EvAfter _ => true | _ => false end)
       (snd (fst six)) = 6%nat
  /\ elapsed (snd (fst six)) = 6 * Second
  /\ snd five = Blocked
  /\ elapsed (snd (fst five)) = 5 * Second
  /\ snd (Request create_err (replicate 5 TimedOut ++ [ChannelClosed]) w)
     = Done (None, Some ErrQueueHasBeenClosed).
Proof.
  cbv zeta.
  destruct (Request_trace create_err (replicate 6 TimedOut ++ rest) w) as [-> ->].
  destruct (Request_trace create_err (replicate 5 TimedOut) w) as [-> ->].
  destruct (Request_trace create_err (replicate 5 TimedOut ++ [ChannelClosed]) w)
    as [_ ->].
  rewrite Request_loop_six_timeouts, count_app, !elapsed_app,
    startConsumer_elapsed. simpl fst. simpl snd.
  repeat split; try reflexivity.
  unfold startConsumer. destruct (startOnce w); [reflexivity|].
  destruct create_err as [err|]; simpl; [|reflexivity].
  destruct (String.eqb _ _); reflexivity.
Qed.

(** C6.  A call of [Request] that observes the handoff channel closed
    returns [ErrQueueHasBeenClosed], whichever poll observes it; that error
    is not [ErrNoTaskInQueue], the one returned on timeout. *)
Theorem Request_closed_channel (create_err : option error) (polls : list poll)
    (w : Worker) :
  In (EvRecv None) (snd (fst (Request create_err polls w))) ->
  snd (Request create_err polls w) = Done (None, Some ErrQueueHasBeenClosed)
  /\ snd (Request create_err polls w) <> Done (None, Some ErrNoTaskInQueue)
  /\ ErrQueueHasBeenClosed <> ErrNoTaskInQueue
  /\ forall rest,
       snd (Request create_err (replicate 6 TimedOut ++ rest) w)
       = Done (None, Some ErrNoTaskInQueue).
Proof.
  intros Hin. apply Request_received in Hin.
  destruct (Request_trace create_err polls w) as [_ ->].
  rewrite (Request_loop_closed polls 0 Hin).
  repeat split; try discriminate.
  intros rest.
  destruct (Request_trace create_err (replicate 6 TimedOut ++ rest) w) as [_ ->].
  reflexivity.
Qed.

(** The close is observed at whichever of the six polls it happens. *)
Lemma Request_observes_close (create_err : option error) (w : Worker)
    (k : nat) (rest : list poll) :
  (k <= 5)%nat ->
  In (EvRecv None)
    (snd (fst (Request create_err (replicate k TimedOut ++ ChannelClosed :: rest) w))).
Proof.
  intros Hk.
  destruct (Request_trace create_err
              (replicate k TimedOut ++ ChannelClosed :: rest) w) as [-> _].
  rewrite (Request_loop_timeouts_then k _ Hk). simpl.
  apply in_or_app. right. apply in_or_app. right. now left.
Qed.

(** C9, amended.  From the entry it receives, [Request] takes the ["body"]
    field and decodes it into a fresh message, one that starts as the zero
    value; it returns that message as the decoder left it, with a nil
    error, whether or not the decoder failed.  So on a failure the caller
    gets what the decoder had written by then: the zero-value message when
    it had written nothing. *)
Theorem Request_swallows_decode_failure (create_err : option error)
    (polls : list poll) (w : Worker) (task : XMessage) (body : string) :
  In (EvRecv (Some task)) (snd (fst (Request create_err polls w))) ->
  Values task !! "body" = Some (IString body) ->
  snd (Request create_err polls w)
  = Done (Some (fst (json_Unmarshal (StrToBytes body) zero_Message)), None)
  /\ (forall data e,
        json_Unmarshal (StrToBytes body) zero_Message = (data, Some e) ->
        snd (Request create_err polls w) = Done (Some data, None))
  /\ (forall e,
        json_Unmarshal (StrToBytes body) zero_Message = (zero_Message, Some e) ->
        snd (Request create_err polls w) = Done (Some zero_Message, None)).
Proof.
  intros Hin Hb. apply Request_received in Hin.
  destruct (Request_trace create_err polls w) as [_ ->].
  pose proof (Request_loop_received polls 0 task Hin) as H.
  rewrite Hb in H. split; [exact H|]. split.
  - intros data e He. rewrite H, He. reflexivity.
  - intros e He. rewrite H, He. reflexivity.
Qed.

(** C10.  When the entry [Request] receives has no ["body"] field, or a
    ["body"] that is not a string, the type assertion panics; so a call
    that received an entry and returned received one with a string
    ["body"]. *)
Theorem Request_panics_without_string_body (create_err : option error)
    (polls : list poll) (w : Worker) (task : XMessage) :
  In (EvRecv (Some task)) (snd (fst (Request create_err polls w))) ->
  ((forall body, Values task !! "body" <> Some (IString body)) ->
   exists msg, snd (Request create_err polls w) = Panicked msg)
  /\ (forall res,
        snd (Request create_err polls w) = Done res ->
        exists body, Values task !! "body" = Some (IString body)).
Proof.
  intros Hin. apply Request_received in Hin.
  destruct (Request_trace create_err polls w) as [_ ->].
  pose proof (Request_loop_received polls 0 task Hin) as H.
  destruct (Values task !! "body") as [[|body| | |]|] eqn:Hb; split;
    try (intros _; exact H);
    try (intros res Hres; exfalso; destruct H; congruence).
  - intros Hno. exfalso. exact (Hno body eq_refl).
  - intros res _. exists body. reflexivity.
Qed.

End RequestClaims.

(** ** Shutdown *)

Lemma wait_requeue_cases (d : option Duration) :
  (exists t, wait_requeue d = EvRecvExit t /\ t < grace)
  \/ wait_requeue d = EvAfter grace.
Proof.
  unfold wait_requeue. destruct d as [t|]; [|now right].
  destruct (Z.ltb_spec t grace); [left; eauto|now right].
Qed.

Lemma wait_requeue_bound (d : option Duration) :
  blocked_for (wait_requeue d) <= grace.
Proof.
  destruct (wait_requeue_cases d) as [(t & -> & Ht)| ->]; simpl; lia.
Qed.

Lemma loser_step (d : option Duration) (w : Worker) (held : bool) (pc : sd_pc) :
  stopFlag w = 1 -> loser pc ->
  exists pc',
    sd_step d w held pc = (with_stopFlag 1 w, held, pc', []) /\ loser pc'
    \/ sd_step d w held pc = (w, held, pc', []) /\ pc' = pc.
Proof.
  intros Hf [-> | ->]; simpl.
  - unfold CompareAndSwapInt32. rewrite Hf. simpl.
    eexists. left. split; [reflexivity|]. now right.
  - eexists. right. split; reflexivity.
Qed.

Lemma winner_at_frame (pc : sd_pc) (c : config) (ths : list sd_pc) :
  winner_at pc c ->
  winner_at pc (mkConfig (with_stopFlag 1 (cw c)) (once_held c) ths (ctrace c ++ [])).
Proof.
  rewrite app_nil_r. destruct pc; simpl; tauto.
Qed.

Lemma winner_at_threads (pc : sd_pc) (c : config) (ths : list sd_pc) :
  winner_at pc c ->
  winner_at pc (mkConfig (cw c) (once_held c) ths (ctrace c ++ [])).
Proof.
  rewrite app_nil_r. destruct pc; simpl; tauto.
Qed.

(** The step of the call that won. *)
Lemma winner_step (d : option Duration) (c : config) (pc : sd_pc) :
  stopFlag (cw c) = 1 -> winner_at pc c ->
  let '(w', held', pc', evs) := sd_step d (cw c) (once_held c) pc in
  stopFlag w' = 1
  /\ (forall ths, winner_at pc' (mkConfig w' held' ths (ctrace c ++ evs)))
  /\ (returned pc = false -> (steps_left pc' < steps_left pc)%nat).
Proof.
  intros Hf Hw. destruct c as [w held ths0 tr]. simpl in *.
  destruct pc; simpl in *.
  - contradiction.
  - destruct Hw as (-> & -> & -> & Hs & Ht). simpl. repeat split; auto.
  - destruct Hw as (-> & Hs & Ht). unfold close_stop. rewrite Hs. simpl.
    repeat split; auto.
  - destruct Hw as (-> & Ht). simpl. repeat split; eauto.
  - destruct Hw as (d' & -> & Ht). unfold close_rdb.
    destruct (rdb w); simpl; repeat split; eauto.
  - destruct Hw as (d' & -> & Ht). unfold close_tasks. rewrite Ht. simpl.
    repeat split; eauto.
  - destruct Hw as (-> & d' & ->). simpl.
    repeat split; eauto. discriminate.
Qed.

Lemma shutdown_inv_step (c : config) (it : sched_item) :
  shutdown_inv c -> shutdown_inv (sched_step c it).
Proof.
  intros Hinv. unfold sched_step. destruct it as [i d]. simpl.
  destruct (threads c !! i) as [pc|] eqn:Hpc; [|exact Hinv].
  pose proof (lookup_lt_Some _ _ _ Hpc) as Hlen.
  destruct Hinv as [(Hrun & Hall & Htr & Hheld)
                   |(Hf & iw & pcw & Hw & Hat & Hothers)].
  - assert (SdCall = pc) as <- by (eapply Forall_lookup_1; eauto).
    destruct Hrun as (Hf & Ho & Hs & Ht). simpl.
    unfold CompareAndSwapInt32. rewrite Hf. simpl.
    right. split; [reflexivity|]. exists i, SdOnce.
    split; [now apply list_lookup_insert_eq|]. split.
    + simpl. rewrite Htr. repeat split; assumption.
    + intros j pc' Hne Hj. simpl in Hj.
      rewrite list_lookup_insert_ne in Hj by auto.
      left. symmetry. eapply Forall_lookup_1; eauto.
  - destruct (decide (i = iw)) as [->|Hne].
    + assert (pc = pcw) as -> by congruence.
      pose proof (winner_step d c pcw Hf Hat) as Hstep.
      destruct (sd_step d (cw c) (once_held c) pcw) as [[[w' held'] pc'] evs].
      destruct Hstep as (Hf' & Hat' & _).
      right. split; [exact Hf'|]. exists iw, pc'.
      split; [now apply list_lookup_insert_eq|]. split; [apply Hat'|].
      intros j pc'' Hj Hl. simpl in Hl.
      rewrite list_lookup_insert_ne in Hl by auto.
      eapply Hothers; eauto.
    + assert (Hlose : loser pc) by (eapply Hothers; eauto).
      destruct (loser_step d (cw c) (once_held c) pc Hf Hlose)
        as [pc' [[-> Hl]|[-> ->]]].
      * right. split; [reflexivity|]. exists iw, pcw.
        split; [simpl; rewrite list_lookup_insert_ne; auto|].
        split; [apply winner_at_frame; auto|].
        intros j pc'' Hj Hlk. simpl in Hlk.
        destruct (decide (j = i)) as [->|Hji].
        -- rewrite list_lookup_insert_eq in Hlk by assumption.
           injection Hlk as <-. exact Hl.
        -- rewrite list_lookup_insert_ne in Hlk by auto. eapply Hothers; eauto.
      * right. split; [exact Hf|]. exists iw, pcw.
        split; [simpl; rewrite list_lookup_insert_ne; auto|].
        split; [apply winner_at_threads; auto|].
        intros j pc'' Hj Hlk. simpl in Hlk.
        destruct (decide (j = i)) as [->|Hji].
        -- rewrite list_lookup_insert_eq in Hlk by assumption.
           injection Hlk as <-. exact Hlose.
        -- rewrite list_lookup_insert_ne in Hlk by auto. eapply Hothers; eauto.
Qed.

Lemma sched_step_length (c : config) (it : sched_item) :
  length (threads (sched_step c it)) = length (threads c).
Proof.
  unfold sched_step. destruct (threads c !! fst it) as [pc|]; [|reflexivity].
  destruct (sd_step (snd it) (cw c) (once_held c) pc) as [[[w' held'] pc'] evs].
  simpl. apply length_insert.
Qed.

Lemma exec_inv (sched : list sched_item) :
  forall c, shutdown_inv c ->
            shutdown_inv (exec c sched)
            /\ length (threads (exec c sched)) = length (threads c).
Proof.
  induction sched as [|it sched IH]; intros c Hinv; simpl; [split; auto|].
  destruct (IH (sched_step c it) (shutdown_inv_step c it Hinv)) as [H1 H2].
  split; [exact H1|]. rewrite H2. apply sched_step_length.
Qed.

Lemma calls_inv (w : Worker) (n : nat) : running w -> shutdown_inv (calls w n).
Proof.
  intros Hrun. left. simpl. repeat split; try apply Hrun.
  apply Forall_replicate. reflexivity.
Qed.

Lemma NewWorker_running (parse_err ping_err : option error) (o : options)
    (w : Worker) :
  NewWorker parse_err ping_err o = Some w -> running w.
Proof.
  unfold NewWorker. destruct (NewWorker_rdb parse_err o); [|discriminate].
  destruct ping_err; [discriminate|].
  intros [= <-]. repeat split.
Qed.

Lemma startConsumer_running (create_err : option error) (w : Worker) :
  running w -> running (fst (startConsumer create_err w)).
Proof.
  unfold startConsumer. destruct (startOnce w); simpl; tauto.
Qed.

Lemma winner_at_counts (pc : sd_pc) (c : config) :
  winner_at pc c ->
  (count (is_close ChStop) (ctrace c) <= 1)%nat
  /\ (count is_conn_close (ctrace c) <= 1)%nat
  /\ (count (is_close ChTasks) (ctrace c) <= 1)%nat.
Proof.
  destruct pc; simpl; try tauto.
  - intros (-> & _). simpl. lia.
  - intros (-> & _). simpl. lia.
  - intros (-> & _). simpl. lia.
  - intros (d & -> & _).
    destruct (wait_requeue_cases d) as [(t & -> & _)| ->]; simpl; lia.
  - intros (d & -> & _).
    destruct (wait_requeue_cases d) as [(t & -> & _)| ->]; simpl; lia.
  - intros (_ & d & ->). unfold shutdown_sequence.
    destruct (wait_requeue_cases d) as [(t & -> & _)| ->]; simpl; lia.
Qed.

Lemma loser_not_performs (pc : sd_pc) : loser pc -> performs pc = false.
Proof. intros [-> | ->]; reflexivity. Qed.

(** In a reachable configuration a call that performs the sequence is the
    one that won. *)
Lemma performer_is_winner (c : config) (i : nat) (pc : sd_pc) :
  shutdown_inv c -> threads c !! i = Some pc -> performs pc = true ->
  stopFlag (cw c) = 1 /\ winner_at pc c
  /\ forall j pc', j <> i -> threads c !! j = Some pc' -> loser pc'.
Proof.
  intros [(_ & Hall & _)|(Hf & iw & pcw & Hw & Hat & Hothers)] Hi Hp.
  - assert (SdCall = pc) as <- by (eapply Forall_lookup_1; eauto).
    discriminate Hp.
  - destruct (decide (i = iw)) as [->|Hne].
    + assert (pc = pcw) as -> by congruence. auto.
    + pose proof (loser_not_performs pc (Hothers i pc Hne Hi)). congruence.
Qed.

(** The sequential [Shutdown] is the call run alone, step by step. *)
Lemma Shutdown_as_steps (d : option Duration) (w : Worker) :
  running w ->
  let c := exec (calls w 1) (replicate 6 (0%nat, d)) in
  (cw c, ctrace c) = fst (Shutdown d w)
  /\ threads c = [SdReturned (snd (Shutdown d w))].
Proof.
  intros (Hf & Ho & Hs & Ht). destruct w as [r rc tc f o so sc ec op].
  simpl in *. subst. destruct r; split; reflexivity.
Qed.

(** C2.  For every number of calls of [Shutdown] on a running worker and
    every interleaving of their steps: at any moment at most one call
    performs the shutdown sequence, each of its effects (closing [stop],
    closing the connection, closing [tasks]) has happened at most once, and
    a call that has returned has returned nil or [ErrQueueShutdown].  When
    all calls have returned, exactly one returned nil, the effects are
    those of one shutdown sequence, and every other call returned
    [ErrQueueShutdown].  A call that finds the flag set returns that error
    at once, with no effect. *)
Theorem Shutdown_exactly_one_winner (w : Worker) (n : nat)
    (sched : list sched_item) :
  running w ->
  let c := exec (calls w n) sched in
  (forall i j pci pcj,
      threads c !! i = Some pci -> threads c !! j = Some pcj ->
      performs pci = true -> performs pcj = true -> i = j)
  /\ ((count (is_close ChStop) (ctrace c) <= 1)%nat
      /\ (count is_conn_close (ctrace c) <= 1)%nat
      /\ (count (is_close ChTasks) (ctrace c) <= 1)%nat)
  /\ (forall i r,
        threads c !! i = Some (SdReturned r) ->
        r = Done None \/ r = Done (Some ErrQueueShutdown))
  /\ (Forall (fun pc => returned pc = true) (threads c) -> (0 < n)%nat ->
      exists i d,
        threads c !! i = Some (SdReturned (Done None))
        /\ ctrace c = shutdown_sequence d
        /\ forall j, j <> i -> (j < n)%nat ->
             threads c !! j = Some (SdReturned (Done (Some ErrQueueShutdown))))
  /\ (forall d w',
        stopFlag w' = 1 ->
        Shutdown d w' = (w', [], Done (Some ErrQueueShutdown))).
Proof.
  intros Hrun c.
  destruct (exec_inv sched (calls w n) (calls_inv w n Hrun)) as [Hinv Hlen].
  fold c in Hinv, Hlen. simpl in Hlen. rewrite length_replicate in Hlen.
  split; [|split; [|split; [|split]]].
  - intros i j pci pcj Hi Hj Hpi Hpj.
    destruct (performer_is_winner c i pci Hinv Hi Hpi) as (_ & _ & Hothers).
    destruct (decide (j = i)) as [->|Hne]; [reflexivity|].
    pose proof (loser_not_performs pcj (Hothers j pcj Hne Hj)). congruence.
  - destruct Hinv as [(_ & _ & Htr & _)|(_ & iw & pcw & _ & Hat & _)].
    + rewrite Htr. simpl. lia.
    + exact (winner_at_counts pcw c Hat).
  - intros i r Hi.
    destruct Hinv as [(_ & Hall & _)|(_ & iw & pcw & Hw & Hat & Hothers)].
    + pose proof (Forall_lookup_1 _ _ _ _ Hall Hi) as H. discriminate H.
    + destruct (decide (i = iw)) as [->|Hne].
      * assert (pcw = SdReturned r) as -> by congruence.
        left. apply Hat.
      * destruct (Hothers i _ Hne Hi) as [H|H]; [discriminate H|].
        injection H as ->. now right.
  - intros Hret Hn.
    destruct Hinv as [(_ & Hall & _)|(_ & iw & pcw & Hw & Hat & Hothers)].
    + destruct (lookup_lt_is_Some_2 (threads c) 0) as [pc Hpc]; [lia|].
      pose proof (Forall_lookup_1 _ _ _ _ Hall Hpc) as <-.
      pose proof (Forall_lookup_1 _ _ _ _ Hret Hpc) as H. discriminate H.
    + pose proof (Forall_lookup_1 _ _ _ _ Hret Hw) as Hr.
      destruct pcw as [| | | | | |r]; try discriminate Hr.
      destruct Hat as (-> & d & Htr).
      exists iw, d. split; [exact Hw|]. split; [exact Htr|].
      intros j Hne Hj.
      destruct (lookup_lt_is_Some_2 (threads c) j) as [pc Hpc]; [lia|].
      pose proof (Forall_lookup_1 _ _ _ _ Hret Hpc) as Hrj.
      destruct (Hothers j pc Hne Hpc) as [->| ->]; [discriminate Hrj|exact Hpc].
  - clear. intros d w' Hf. unfold Shutdown, CompareAndSwapInt32. rewrite Hf.
    simpl. destruct w'; simpl in *; subst; reflexivity.
Qed.

(** C7.  A call of [Shutdown] that wins always returns.  It closes [stop],
    waits until [exit] is closed or the grace period of 200 ms is over,
    whichever comes first, then closes the connection and closes [tasks].
    When the loop closes [exit] after [d] with [d] less than 200 ms, the
    wait ends on [exit], after [d]; when it closes [exit] later, or never,
    the wait ends on the timer, after 200 ms.  So the time spent blocked
    is the smaller of the two and at most the grace period.  Among
    concurrent calls the one that performs the sequence advances at each
    of its steps, whatever the others do: it is never made to wait. *)
Theorem Shutdown_bounded_wait (exit_after : option Duration) (w : Worker) :
  running w ->
  (exists w',
      Shutdown exit_after w = (w', shutdown_sequence exit_after, Done None)
      /\ stopFlag w' = 1 /\ stop_closed w' = true
      /\ rdb_closed w' = true /\ tasks_closed w' = true)
  /\ Shutdown None w
     = (fst (fst (Shutdown None w)),
        [EvClose ChStop; EvAfter (200 * Millisecond); EvConnClose; EvClose ChTasks],
        Done None)
  /\ (forall d,
        d < 200 * Millisecond ->
        snd (fst (Shutdown (Some d) w))
        = [EvClose ChStop; EvRecvExit d; EvConnClose; EvClose ChTasks]
        /\ elapsed (snd (fst (Shutdown (Some d) w))) = d)
  /\ (forall d,
        200 * Millisecond <= d ->
        snd (fst (Shutdown (Some d) w))
        = [EvClose ChStop; EvAfter (200 * Millisecond); EvConnClose;
           EvClose ChTasks]
        /\ elapsed (snd (fst (Shutdown (Some d) w))) = 200 * Millisecond)
  /\ elapsed (snd (fst (Shutdown exit_after w)))
     = match exit_after with
       | Some d => Z.min d (200 * Millisecond)
       | None => 200 * Millisecond
       end
  /\ elapsed (shutdown_sequence exit_after) <= 200 * Millisecond
  /\ (forall n sched i pc d,
        let c := exec (calls w n) sched in
        threads c !! i = Some pc -> performs pc = true -> returned pc = false ->
        exists pc',
          threads (sched_step c (i, d)) !! i = Some pc'
          /\ (steps_left pc' < steps_left pc)%nat).
Proof.
  intros Hrun.
  assert (Htr : forall ea, snd (fst (Shutdown ea w)) = shutdown_sequence ea).
  { intros ea. destruct Hrun as (Hf & Ho & Hs & Ht).
    destruct w as [r rc tc f o so sc ec op]. simpl in *. subst.
    destruct r; reflexivity. }
  assert (Hearly : forall d, d < 200 * Millisecond ->
            wait_requeue (Some d) = EvRecvExit d).
  { intros d Hd. unfold wait_requeue, grace.
    destruct (Z.ltb_spec d (200 * Millisecond)); [reflexivity|lia]. }
  assert (Hlate : forall d, 200 * Millisecond <= d ->
            wait_requeue (Some d) = EvAfter (200 * Millisecond)).
  { intros d Hd. unfold wait_requeue, grace.
    destruct (Z.ltb_spec d (200 * Millisecond)); [lia|reflexivity]. }
  split; [|split; [|split; [|split; [|split; [|split]]]]].
  - destruct Hrun as (Hf & Ho & Hs & Ht).
    destruct w as [r rc tc f o so sc ec op]. simpl in *. subst.
    destruct r; eexists; (split; [reflexivity|]); repeat split.
  - destruct Hrun as (Hf & Ho & Hs & Ht).
    destruct w as [r rc tc f o so sc ec op]. simpl in *. subst.
    destruct r; reflexivity.
  - intros d Hd. rewrite Htr. unfold shutdown_sequence.
    rewrite (Hearly d Hd). split; [reflexivity|]. simpl. lia.
  - intros d Hd. rewrite Htr. unfold shutdown_sequence.
    rewrite (Hlate d Hd). split; [reflexivity|]. simpl. lia.
  - rewrite Htr. unfold shutdown_sequence. destruct exit_after as [d|].
    + destruct (Z.lt_ge_cases d (200 * Millisecond)) as [Hd|Hd].
      * assert (E : wait_requeue (Some d) = EvRecvExit d)
          by exact (Hearly d Hd).
        rewrite E. simpl. lia.
      * assert (E : wait_requeue (Some d) = EvAfter (200 * Millisecond))
          by exact (Hlate d Hd).
        rewrite E. simpl. lia.
    + simpl. unfold grace. lia.
  - unfold shutdown_sequence. simpl.
    pose proof (wait_requeue_bound exit_after). unfold grace in H. lia.
  - intros n sched i pc d c Hi Hp Hr.
    destruct (exec_inv sched (calls w n) (calls_inv w n Hrun)) as [Hinv _].
    fold c in Hinv.
    destruct (performer_is_winner c i pc Hinv Hi Hp) as (Hf & Hat & _).
    pose proof (winner_step d c pc Hf Hat) as Hstep.
    unfold sched_step. simpl. rewrite Hi.
    destruct (sd_step d (cw c) (once_held c) pc) as [[[w' held'] pc'] evs].
    destruct Hstep as (_ & _ & Hlt).
    exists pc'. split; [|exact (Hlt Hr)].
    simpl. apply list_lookup_insert_eq. eapply lookup_lt_Some; eauto.
Qed.

(** ** The theorems at concrete runs *)

(** [Queue] on a worker that was shut down, and on a running one. *)
Lemma Queue_contract_witness :
  Queue None stopped_worker example_task = ([], Some ErrQueueShutdown)
  /\ exists a body,
       Queue None example_worker example_task = ([EvXAdd a None], None)
       /\ xa_Values a = {[ "body" := IString body ]}
       /\ StrToBytes body = Bytes example_task.
Proof.
  destruct (Queue_contract None stopped_worker example_task) as [Hstop _].
  destruct (Queue_contract None example_worker example_task) as [_ Hrun].
  split.
  - apply Hstop. reflexivity.
  - destruct Hrun as (a & body & H1 & _ & _ & _ & H2 & _ & H3); [discriminate|].
    exists a, body. auto.
Defined.

(** Three calls interleaved as in [three_calls_schedule]: one returns nil
    and two return the error. *)
Lemma Shutdown_exactly_one_winner_witness :
  running example_worker
  /\ exists i d,
       threads (exec (calls example_worker 3) three_calls_schedule) !! i
       = Some (SdReturned (Done None))
       /\ ctrace (exec (calls example_worker 3) three_calls_schedule)
          = shutdown_sequence d
       /\ forall j, j <> i -> (j < 3)%nat ->
            threads (exec (calls example_worker 3) three_calls_schedule) !! j
            = Some (SdReturned (Done (Some ErrQueueShutdown))).
Proof.
  assert (Hrun : running example_worker) by (repeat split; reflexivity).
  split; [exact Hrun|].
  destruct (Shutdown_exactly_one_winner example_worker 3 three_calls_schedule Hrun)
    as (_ & _ & _ & H & _).
  apply H.
  - vm_compute. repeat constructor.
  - lia.
Defined.

(** A loop that closes [exit] after 5 ms ends the wait then; one that
    would close it after 350 ms is not waited for. *)
Lemma Shutdown_bounded_wait_witness :
  running example_worker
  /\ snd (fst (Shutdown (Some (5 * Millisecond)) example_worker))
     = [EvClose ChStop; EvRecvExit (5 * Millisecond); EvConnClose;
        EvClose ChTasks]
  /\ snd (fst (Shutdown (Some (350 * Millisecond)) example_worker))
     = [EvClose ChStop; EvAfter (200 * Millisecond); EvConnClose;
        EvClose ChTasks].
Proof.
  assert (Hrun : running example_worker) by (repeat split; reflexivity).
  split; [exact Hrun|].
  destruct (Shutdown_bounded_wait None example_worker Hrun)
    as (_ & _ & Hearly & Hlate & _).
  split.
  - apply (Hearly (5 * Millisecond)). reflexivity.
  - apply (Hlate (350 * Millisecond)). discriminate.
Defined.

(** The channel is found closed at the third poll. *)
Lemma Request_closed_channel_witness :
  snd (Request (JM := example_JobMessage) None
         [TimedOut; TimedOut; ChannelClosed] example_worker)
  = Done (None, Some ErrQueueHasBeenClosed).
Proof.
  apply (Request_closed_channel (JM := example_JobMessage) None
           [TimedOut; TimedOut; ChannelClosed] example_worker).
  vm_compute. right. right. right. right. left. reflexivity.
Defined.

(** C9, as stated, fails: a decoder that has written into the message
    before it reports its error leaves a message that is not the zero
    value, and [Request] returns that message with a nil error. *)
Lemma Request_returns_partly_decoded_message :
  snd (@json_Unmarshal partial_JobMessage (StrToBytes "a")
         (@zero_Message partial_JobMessage))
  <> None
  /\ snd (Request (JM := partial_JobMessage) None [Received entry_1]
            example_worker)
     = Done (Some (StrToBytes "a"), None)
  /\ StrToBytes "a" <> @zero_Message partial_JobMessage.
Proof.
  split; [discriminate|]. split; [reflexivity|discriminate].
Qed.

(** The decoder rejects the empty body, having written nothing; the call
    returns the zero-value message and a nil error. *)
Lemma Request_swallows_decode_failure_witness :
  snd (Request (JM := example_JobMessage) None
         [TimedOut; Received empty_body] example_worker)
  = Done (Some zero_Message, None).
Proof.
  destruct (Request_swallows_decode_failure (JM := example_JobMessage) None
              [TimedOut; Received empty_body] example_worker empty_body
              EmptyString) as (_ & H & _).
  - vm_compute. right. right. right. left. reflexivity.
  - reflexivity.
  - apply (H zero_Message (OtherError "unexpected end of JSON input")).
    reflexivity.
Defined.

(** A body that is an integer makes the call panic. *)
Lemma Request_panics_without_string_body_witness :
  exists msg,
    snd (Request (JM := example_JobMessage) None [Received int_body] example_worker)
    = Panicked msg.
Proof.
  apply (Request_panics_without_string_body (JM := example_JobMessage) None
           [Received int_body] example_worker int_body).
  - vm_compute. right. right. left. reflexivity.
  - intros body H. vm_compute in H. discriminate H.
Defined.

(** * Further properties *)

(** ** Request *)

Lemma wrap_int_succ (k : nat) :
  (k < 5)%nat -> wrap_int (Z.of_nat k + 1) = Z.of_nat (S k).
Proof.
  intros Hk. do 5 (destruct k as [|k]; [reflexivity|]). lia.
Qed.

Lemma Second_pos : 0 < Second.
Proof. reflexivity. Qed.

Lemma elapsed_timers (k : nat) :
  elapsed (replicate k (EvAfter (1 * Second))) = Z.of_nat k * Second.
Proof.
  induction k as [|k IH]; [reflexivity|].
  cbn [replicate elapsed blocked_for]. rewrite IH. lia.
Qed.

Section RequestMore.
Context `{JM : JobMessage}.

Lemma Request_loop_bounded (polls : list poll) :
  forall k,
    (k <= 5)%nat ->
    elapsed (fst (Request_loop (Z.of_nat k) polls)) <= (6 - Z.of_nat k) * Second
    /\ (count is_timer (fst (Request_loop (Z.of_nat k) polls)) <= 6 - k)%nat
    /\ ((6 - k <= length polls)%nat ->
        snd (Request_loop (Z.of_nat k) polls) <> Blocked).
Proof.
  pose proof Second_pos as Hs.
  induction polls as [|p polls IH]; intros k Hk; simpl.
  - repeat split; [nia|lia|lia].
  - destruct p as [task| |].
    + destruct (Values task !! "body") as [[|body| | |]|];
        try destruct (json_Unmarshal (StrToBytes body) zero_Message) as [data e];
        simpl; repeat split; try nia; try lia; discriminate.
    + simpl. repeat split; try nia; try lia; discriminate.
    + destruct (Z.eqb_spec (Z.of_nat k) 5) as [H5|H5]; simpl.
      * repeat split; try nia; try lia; discriminate.
      * assert (Hlt : (k < 5)%nat) by lia.
        rewrite (wrap_int_succ k Hlt).
        destruct (IH (S k)) as (He & Hc & Hb); [lia|].
        destruct (Request_loop (Z.of_nat (S k)) polls) as [tr r]; simpl in *.
        repeat split; [nia|lia|].
        intros Hlen. apply Hb. lia.
Qed.

(** X1.  Whatever the polls meet, a call of [Request] spends at most six
    seconds blocked and lets at most six timers fire; and when the
    environment describes six polls or more, the call has ended: it is not
    left polling. *)
Theorem Request_returns_within_six_polls (create_err : option error)
    (polls : list poll) (w : Worker) :
  (6 <= length polls)%nat ->
  snd (Request create_err polls w) <> Blocked
  /\ elapsed (snd (fst (Request create_err polls w))) <= 6 * Second
  /\ (count is_timer (snd (fst (Request create_err polls w))) <= 6)%nat.
Proof.
  intros Hlen.
  destruct (Request_trace create_err polls w) as [-> ->].
  destruct (Request_loop_bounded polls 0) as (He & Hc & Hb); [lia|].
  change (Z.of_nat 0) with 0 in He, Hc, Hb.
  rewrite elapsed_app, count_app, startConsumer_elapsed.
  split; [apply Hb; lia|]. split; [lia|].
  assert (Hz : count is_timer (snd (startConsumer create_err w)) = 0%nat).
  { unfold startConsumer. destruct (startOnce w); [reflexivity|].
    destruct create_err as [err|]; simpl; [|reflexivity].
    destruct (String.eqb _ _); reflexivity. }
  lia.
Qed.

Lemma Request_loop_shape (polls : list poll) :
  forall clock m e,
    snd (Request_loop clock polls) = Done (m, e) ->
    (exists data, m = Some data /\ e = None)
    \/ (m = None
        /\ (e = Some ErrNoTaskInQueue \/ e = Some ErrQueueHasBeenClosed)).
Proof.
  induction polls as [|p polls IH]; intros clock m e; simpl; [discriminate|].
  destruct p as [task| |].
  - destruct (Values task !! "body") as [[|body| | |]|];
      try destruct (json_Unmarshal (StrToBytes body) zero_Message) as [data e'];
      simpl; try discriminate.
    intros [= <- <-]. left. eauto.
  - simpl. intros [= <- <-]. right. auto.
  - destruct (clock =? 5); simpl.
    + intros [= <- <-]. right. auto.
    + specialize (IH (wrap_int (clock + 1)) m e).
      destruct (Request_loop (wrap_int (clock + 1)) polls) as [tr r]. exact IH.
Qed.

(** X2.  A call of [Request] that returns gives either a message and a nil
    error, or no message and one of the two errors [ErrNoTaskInQueue] and
    [ErrQueueHasBeenClosed]: never a message with an error, never neither,
    never another error. *)
Theorem Request_result_shape (create_err : option error) (polls : list poll)
    (w : Worker) (m : option Message) (e : option error) :
  snd (Request create_err polls w) = Done (m, e) ->
  (exists data, m = Some data /\ e = None)
  \/ (m = None /\ (e = Some ErrNoTaskInQueue \/ e = Some ErrQueueHasBeenClosed)).
Proof.
  destruct (Request_trace create_err polls w) as [_ ->].
  apply Request_loop_shape.
Qed.

(** X3.  An entry that arrives at any of the six polls is taken: after
    [k <= 5] timeouts the call returns the decoded entry, having been
    blocked for [k] seconds, and what the environment would do afterwards
    is not looked at. *)
Theorem Request_takes_entry_within_window (create_err : option error)
    (w : Worker) (k : nat) (task : XMessage) (body : string)
    (rest : list poll) :
  (k <= 5)%nat ->
  Values task !! "body" = Some (IString body) ->
  let call := Request create_err (replicate k TimedOut ++ Received task :: rest) w in
  snd call
  = Done (Some (fst (json_Unmarshal (StrToBytes body) zero_Message)), None)
  /\ elapsed (snd (fst call)) = Z.of_nat k * Second
  /\ snd call = snd (Request create_err (replicate k TimedOut ++ [Received task]) w).
Proof.
  intros Hk Hb call. unfold call.
  destruct (Request_trace create_err
              (replicate k TimedOut ++ Received task :: rest) w) as [-> ->].
  destruct (Request_trace create_err
              (replicate k TimedOut ++ [Received task]) w) as [_ ->].
  rewrite !(Request_loop_timeouts_then k _ Hk). simpl. rewrite Hb.
  destruct (json_Unmarshal (StrToBytes body) zero_Message) as [data e]. simpl.
  split; [reflexivity|]. split; [|reflexivity].
  rewrite !elapsed_app, startConsumer_elapsed, elapsed_timers. simpl. lia.
Qed.

Lemma startConsumer_go (create_err : option error) (w : Worker) :
  count is_go (snd (startConsumer create_err w))
  = (if startOnce w then 0 else 1)%nat
  /\ count is_group_create (snd (startConsumer create_err w))
     = (if startOnce w then 0 else 1)%nat
  /\ startOnce (fst (startConsumer create_err w)) = true.
Proof.
  unfold startConsumer. destruct (startOnce w) eqn:Hs; simpl; [auto|].
  destruct create_err as [err|]; simpl; [|auto].
  destruct (String.eqb _ _); simpl; auto.
Qed.

Lemma Request_loop_no_start (polls : list poll) :
  forall clock,
    count is_go (fst (Request_loop clock polls)) = 0%nat
    /\ count is_group_create (fst (Request_loop clock polls)) = 0%nat.
Proof.
  induction polls as [|p polls IH]; intros clock; simpl; [auto|].
  destruct p as [task| |].
  - destruct (Values task !! "body") as [[|body| | |]|];
      try destruct (json_Unmarshal (StrToBytes body) zero_Message) as [data e];
      simpl; auto.
  - simpl. auto.
  - destruct (clock =? 5); simpl; [auto|].
    specialize (IH (wrap_int (clock + 1))).
    destruct (Request_loop (wrap_int (clock + 1)) polls) as [tr r]. exact IH.
Qed.

Lemma Request_start (create_err : option error) (polls : list poll) (w : Worker) :
  count is_go (snd (fst (Request create_err polls w)))
  = (if startOnce w then 0 else 1)%nat
  /\ count is_group_create (snd (fst (Request create_err polls w)))
     = (if startOnce w then 0 else 1)%nat
  /\ fst (fst (Request create_err polls w)) = fst (startConsumer create_err w).
Proof.
  destruct (startConsumer_go create_err w) as (Hg & Hc & _).
  destruct (Request_loop_no_start polls 0) as [Hg' Hc'].
  unfold Request. destruct (startConsumer create_err w) as [w' started].
  destruct (Request_loop 0 polls) as [tr r]. simpl in *.
  rewrite !count_app. repeat split; lia.
Qed.

Lemma Requests_started (envs : list request_env) :
  forall w,
    startOnce w = true ->
    count is_go (snd (Requests envs w)) = 0%nat
    /\ count is_group_create (snd (Requests envs w)) = 0%nat.
Proof.
  induction envs as [|e envs IH]; intros w Hs; simpl; [auto|].
  destruct (Request_start (create_answer e) (polls_met e) w) as (Hg & Hc & Hw).
  rewrite Hs in Hg, Hc.
  destruct (Request (create_answer e) (polls_met e) w) as [[w' tr] r].
  simpl in *.
  assert (Hs' : startOnce w' = true).
  { rewrite Hw. apply startConsumer_go. }
  destruct r as [res| |]; simpl; auto.
  destruct (IH w' Hs') as [Hg' Hc'].
  destruct (Requests envs w') as [w'' tr']. simpl in *.
  rewrite !count_app. lia.
Qed.

(** X4.  Over any sequence of calls of [Request] on a worker that has not
    started its consumer yet, the group is created once and the consumer
    loop is started once, by the first call; every later call starts
    nothing. *)
Theorem Requests_start_consumer_once (e : request_env)
    (envs : list request_env) (w : Worker) :
  startOnce w = false ->
  count is_go (snd (Requests (e :: envs) w)) = 1%nat
  /\ count is_group_create (snd (Requests (e :: envs) w)) = 1%nat
  /\ count is_go (snd (fst (Request (create_answer e) (polls_met e) w))) = 1%nat.
Proof.
  intros Hs. simpl.
  destruct (Request_start (create_answer e) (polls_met e) w) as (Hg & Hc & Hw).
  rewrite Hs in Hg, Hc.
  destruct (Request (create_answer e) (polls_met e) w) as [[w' tr] r].
  simpl in *.
  assert (Hs' : startOnce w' = true).
  { rewrite Hw. apply startConsumer_go. }
  destruct r as [res| |]; simpl; auto.
  destruct (Requests_started envs w' Hs') as [Hg' Hc'].
  destruct (Requests envs w') as [w'' tr']. simpl in *.
  rewrite !count_app. repeat split; lia.
Qed.

(** X5.  Round trip of a task.  When [Queue] has issued its [XAdd] and an
    entry carrying the field map of that call reaches [Request], the call
    does not panic and the decoder is given exactly the bytes of the
    task. *)
Theorem Queue_Request_round_trip (err : option error) (w : Worker)
    (task : TaskMessage) (a : XAddArgs) (m : XMessage)
    (create_err : option error) (polls : list poll) (w' : Worker) :
  fst (Queue err w task) = [EvXAdd a err] ->
  Values m = xa_Values a ->
  In (EvRecv (Some m)) (snd (fst (Request create_err polls w'))) ->
  snd (Request create_err polls w')
  = Done (Some (fst (json_Unmarshal (Bytes task) zero_Message)), None).
Proof.
  unfold Queue, queue, LoadInt32.
  destruct (stopFlag w =? 1); simpl; [discriminate|].
  intros [= <-] Hv Hin. simpl in Hv.
  apply Request_received in Hin.
  destruct (Request_trace create_err polls w') as [_ ->].
  pose proof (Request_loop_received polls 0 m Hin) as H.
  rewrite Hv, lookup_singleton_eq in H. rewrite H.
  unfold StrToBytes, BytesToStr.
  rewrite list_byte_of_string_of_list_byte. reflexivity.
Qed.

End RequestMore.

(** ** The consumer loop: order, addresses, outstanding entries *)

Lemma selected_app (a b : list event) :
  selected (a ++ b) = selected a ++ selected b.
Proof.
  induction a as [|e a IH]; simpl; [reflexivity|].
  destruct e; simpl; rewrite ?IH; reflexivity.
Qed.

Lemma delivered_app (a b : list event) :
  delivered (a ++ b) = delivered a ++ delivered b.
Proof.
  induction a as [|e a IH]; simpl; [reflexivity|].
  destruct e as [| | | |m [| |]| | | | | | |]; simpl; rewrite ?IH; reflexivity.
Qed.

Lemma acked_ids_app (a b : list event) :
  acked_ids (a ++ b) = acked_ids a ++ acked_ids b.
Proof.
  induction a as [|e a IH]; simpl; [reflexivity|].
  destruct e; simpl; rewrite ?IH; reflexivity.
Qed.

Lemma handoff_order_app (ms1 ms2 : list XMessage) (tr1 tr2 : list event)
    (k : option (run exit_point)) :
  handoff_order ms1 tr1 None -> handoff_order ms2 tr2 k ->
  handoff_order (ms1 ++ ms2) (tr1 ++ tr2) k.
Proof.
  intros (Ha1 & last1 & rest1 & Hm1 & Hs1 & _ & Hn1 & _)
         (Ha2 & last2 & rest2 & Hm2 & Hs2 & Hl2 & Hn2 & Hb2 & Hc2).
  destruct (Hn1 eq_refl) as [-> ->]. rewrite !app_nil_r in Hm1, Hs1.
  split.
  - rewrite acked_ids_app, delivered_app, map_app, Ha1, Ha2. reflexivity.
  - exists last2, rest2. rewrite delivered_app, selected_app, Hs1.
    split; [|split; [|split; [|split; [|split]]]]; try assumption.
    + rewrite Hm1 at 1. rewrite Hm2 at 1. now rewrite <- app_assoc.
    + rewrite Hs2. now rewrite <- app_assoc.
Qed.

Lemma handoff_order_nil (k : option (run exit_point)) :
  handoff_order [] [] k.
Proof.
  split; [reflexivity|]. exists [], [].
  split; [|split; [|split; [|split; [|split]]]]; auto. congruence.
Qed.

(** A select that ended otherwise than by a delivery, or a loop left
    blocked before an entry, leaves the later entries unoffered. *)
Lemma handoff_order_stopped (m : XMessage) (ms : list XMessage)
    (tr : list event) (k : option (run exit_point)) :
  acked_ids tr = [] -> delivered tr = [] ->
  (selected tr = [m] \/ (selected tr = [] /\ k = Some Blocked)) ->
  k <> None -> k <> Some (Done ExitStopCheck) ->
  handoff_order (m :: ms) tr k.
Proof.
  intros Ha Hd Hs Hk1 Hk2. split; [now rewrite Ha, Hd|].
  rewrite Hd. destruct Hs as [Hs|[Hs ->]].
  - exists [m], ms. simpl.
    split; [|split; [|split; [|split; [|split]]]]; auto; try contradiction.
    discriminate.
  - exists [], (m :: ms). simpl.
    split; [|split; [|split; [|split; [|split]]]]; auto; discriminate.
Qed.

Lemma range_messages_order (w : Worker) (ms : list XMessage) :
  forall hs,
    handoff_order ms (fst (fst (range_messages w ms hs)))
      (snd (fst (range_messages w ms hs))).
Proof.
  induction ms as [|m ms IH]; intros hs; simpl; [apply handoff_order_nil|].
  destruct hs as [|h hs]; simpl.
  { apply handoff_order_stopped; auto; discriminate. }
  destruct h as [[| |] e]; unfold handoff, queue; simpl.
  - specialize (IH hs).
    destruct (range_messages w ms hs) as [[tr' k'] hs'']. simpl in *.
    apply (handoff_order_app [m] ms
             (EvSelect m Delivered
              :: EvXAck (streamName (opts w)) (group (opts w)) (ID m) e
              :: match e with
                 | Some _ => [EvLog (LogCantAck (ID m))]
                 | None => []
                 end)); [|exact IH].
    split; [destruct e; reflexivity|]. exists [], [].
    destruct e; simpl;
      (split; [|split; [|split; [|split; [|split]]]]); auto; congruence.
  - apply handoff_order_stopped; try discriminate; destruct e; auto.
  - apply handoff_order_stopped; try discriminate; auto.
Qed.

Lemma iteration_order (w : Worker) (e : iteration_env) :
  handoff_order (entries_read (fst (iteration w e))) (fst (iteration w e))
    (snd (iteration w e)).
Proof.
  unfold iteration. destruct (stop_ready e); simpl; [apply handoff_order_nil|].
  destruct (read_err e) as [err|]; simpl; [apply handoff_order_nil|].
  destruct (range_data_shape w (read_data e) (handoffs e)) as [Hr _].
  rewrite range_data_flat in *.
  pose proof (range_messages_order w (flat_messages (read_data e)) (handoffs e))
    as Ho.
  destruct (range_messages w (flat_messages (read_data e)) (handoffs e))
    as [[tr k] hs']. simpl in *.
  rewrite Hr, app_nil_r. exact Ho.
Qed.

Lemma fetchTask_order (w : Worker) (env : list iteration_env) :
  handoff_order (entries_read (fst (fetchTask w env))) (fst (fetchTask w env))
    (Some (snd (fetchTask w env))).
Proof.
  induction env as [|e env IH]; simpl; [apply handoff_order_nil|].
  pose proof (iteration_order w e) as He.
  destruct (iteration w e) as [tr [r|]]; simpl in *; [exact He|].
  destruct (fetchTask w env) as [tr' r']; simpl in *.
  rewrite entries_read_app. apply handoff_order_app; assumption.
Qed.

(** X6.  The consumer loop hands entries off in the order it read them and
    skips none: in every run the entries read are the delivered entries,
    in order, then at most one entry on which the select ended otherwise
    (on [stop], or on the closed channel), then the entries never
    offered. *)
Theorem fetchTask_hands_off_in_read_order (w : Worker)
    (env : list iteration_env) :
  let tr := fst (fetchTask w env) in
  delivered tr `prefix_of` entries_read tr
  /\ exists last rest,
       entries_read tr = delivered tr ++ last ++ rest
       /\ selected tr = delivered tr ++ last
       /\ (length last <= 1)%nat.
Proof.
  intros tr.
  destruct (fetchTask_order w env) as (_ & last & rest & Hm & Hs & Hl & _).
  fold tr in Hm, Hs. split.
  - exists (last ++ rest). exact Hm.
  - exists last, rest. auto.
Qed.

(** X7.  The acknowledgements follow the deliveries one for one: in every
    run the IDs for which [XAck] was issued are, in order, the IDs of the
    entries delivered.  No [XAck] is issued for an entry that was not
    delivered, and none is issued twice or out of order. *)
Theorem fetchTask_acks_follow_deliveries (w : Worker)
    (env : list iteration_env) :
  acked_ids (fst (fetchTask w env)) = map ID (delivered (fst (fetchTask w env))).
Proof. apply (fetchTask_order w env). Qed.

(** X8.  A loop that returns at the stop check leaves no entry behind:
    every entry it has read was delivered to a caller of [Request] and an
    [XAck] was issued for it, in the order read; nothing was requeued. *)
Theorem fetchTask_stop_check_leaves_nothing (w : Worker)
    (env : list iteration_env) :
  snd (fetchTask w env) = Done ExitStopCheck ->
  let tr := fst (fetchTask w env) in
  delivered tr = entries_read tr
  /\ acked_ids tr = map ID (entries_read tr)
  /\ count is_xadd tr = 0%nat.
Proof.
  intros Hr tr.
  destruct (fetchTask_order w env)
    as (Ha & last & rest & Hm & _ & _ & _ & _ & Hc).
  destruct (fetchTask_facts w env) as [_ _ X _ T _ _].
  fold tr in Ha, Hm, X, T. rewrite Hr in Hc, T.
  destruct (Hc eq_refl) as [-> ->]. rewrite !app_nil_r in Hm.
  rewrite Ha, <- Hm. repeat split. lia.
Qed.

Lemma handoff_events (w : Worker) (h : handoff_env) (m : XMessage) :
  Forall (loop_event w) (fst (handoff w h m)).
Proof.
  unfold handoff, queue.
  destruct h as [[| |] [e|]]; simpl; repeat constructor.
Qed.

Lemma range_messages_events (w : Worker) (ms : list XMessage) :
  forall hs, Forall (loop_event w) (fst (fst (range_messages w ms hs))).
Proof.
  induction ms as [|m ms IH]; intros hs; simpl; [constructor|].
  destruct hs as [|h hs]; simpl; [constructor|].
  pose proof (handoff_events w h m) as Hh.
  destruct (handoff w h m) as [tr [r|]]; simpl in *; [exact Hh|].
  specialize (IH hs).
  destruct (range_messages w ms hs) as [[tr' k'] hs'']; simpl in *.
  apply Forall_app. split; assumption.
Qed.

Lemma iteration_events (w : Worker) (e : iteration_env) :
  Forall (loop_event w) (fst (iteration w e)).
Proof.
  unfold iteration. destruct (stop_ready e); simpl; [constructor|].
  destruct (read_err e) as [err|]; simpl; [repeat constructor|].
  rewrite range_data_flat.
  pose proof (range_messages_events w (flat_messages (read_data e)) (handoffs e))
    as Hm.
  destruct (range_messages w (flat_messages (read_data e)) (handoffs e))
    as [[tr k] hs']. simpl in *.
  constructor; [reflexivity|exact Hm].
Qed.

(** X9.  What the consumer loop never does.  Every event of every run is a
    read with [Count: 1] on the configured stream at [">"] (new entries
    only), an [XAck] on the configured stream and group, an [XAdd] on the
    configured stream with the configured [MaxLen], a select, a log line, or
    the close of [exit]: the loop never creates the group, never closes
    [stop], [tasks] or the connection, and never reads pending entries. *)
Theorem fetchTask_events_confined (w : Worker) (env : list iteration_env) :
  Forall (loop_event w) (fst (fetchTask w env))
  /\ rg_Count (read_args w) = 1
  /\ rg_Streams (read_args w) = [streamName (opts w); ">"]
  /\ count (is_close ChStop) (fst (fetchTask w env)) = 0%nat
  /\ count (is_close ChTasks) (fst (fetchTask w env)) = 0%nat
  /\ count is_conn_close (fst (fetchTask w env)) = 0%nat.
Proof.
  assert (Hall : Forall (loop_event w) (fst (fetchTask w env))).
  { induction env as [|e env IH]; simpl; [constructor|].
    pose proof (iteration_events w e) as He.
    destruct (iteration w e) as [tr [r|]]; simpl in *; [exact He|].
    destruct (fetchTask w env) as [tr' r']; simpl in *.
    apply Forall_app. split; assumption. }
  split; [exact Hall|]. split; [reflexivity|]. split; [reflexivity|].
  induction Hall as [|e tr He _ IH]; simpl; [auto|].
  destruct IH as (H1 & H2 & H3). rewrite H1, H2, H3.
  destruct e as [| | | | | |[| |]| | | | |]; simpl in *; auto; contradiction.
Qed.

Lemma iteration_reads (w : Worker) (e : iteration_env) :
  entries_read (fst (iteration w e)) = []
  \/ entries_read (fst (iteration w e)) = flat_messages (read_data e).
Proof.
  unfold iteration. destruct (stop_ready e); simpl; [now left|].
  destruct (read_err e) as [err|]; simpl; [now left|].
  destruct (range_data_shape w (read_data e) (handoffs e)) as [Hr _].
  destruct (range_data w (read_data e) (handoffs e)) as [[tr k] hs'].
  simpl in *. rewrite Hr, app_nil_r. now right.
Qed.

(** X10.  While the store honours [Count: 1], at most one entry is ever
    outstanding: in every run the entries read are the entries delivered
    and acknowledged, in order, followed by at most one more entry. *)
Theorem fetchTask_one_outstanding (w : Worker) (env : list iteration_env) :
  Forall (count_respected w) env ->
  let tr := fst (fetchTask w env) in
  exists pending,
    entries_read tr = delivered tr ++ pending
    /\ (length pending <= 1)%nat
    /\ acked_ids tr = map ID (delivered tr).
Proof.
  intros Hall tr.
  assert (H : exists pending,
             entries_read tr = delivered tr ++ pending
             /\ (length pending <= 1)%nat).
  { unfold tr. clear tr.
    induction env as [|e env IH]; simpl; [exists []; auto|].
    apply Forall_cons in Hall as [He Hall]. specialize (IH Hall).
    pose proof (iteration_order w e) as Ho.
    pose proof (iteration_reads w e) as Hr.
    unfold count_respected in He. simpl in He.
    destruct (iteration w e) as [tr [r|]]; simpl in *.
    - destruct Ho as (_ & last & rest & Hm & _).
      exists (last ++ rest). split; [exact Hm|].
      assert (Hlen : (length (entries_read tr) <= 1)%nat).
      { destruct Hr as [-> | ->]; simpl; lia. }
      rewrite Hm, !length_app in Hlen. rewrite length_app. lia.
    - destruct Ho as (_ & last & rest & Hm & _ & _ & Hn & _).
      destruct (Hn eq_refl) as [-> ->]. rewrite !app_nil_r in Hm.
      destruct (fetchTask w env) as [tr' r']; simpl in *.
      destruct IH as (pending & Hp & Hl). exists pending.
      rewrite entries_read_app, delivered_app, Hm, Hp, <- app_assoc.
      auto. }
  destruct H as (pending & Hp & Hl). exists pending.
  repeat split; try assumption. apply (fetchTask_order w env).
Qed.

Lemma stop_trace_shape (w : Worker) (m : XMessage) (err : option error) :
  stop_trace w m err
  = [EvSelect m StopSignalled; EvLog (LogRequeue (ID m)); requeue_of w m err]
    ++ match err with
       | Some _ => [EvLog (LogRequeueFailed (ID m))]
       | None => []
       end
    ++ [EvClose ChExit]
  /\ delivered (stop_trace w m err) = []
  /\ entries_read (stop_trace w m err) = [].
Proof.
  unfold stop_trace, handoff, queue, requeue_of. destruct err; simpl; auto.
Qed.

Lemma range_messages_requeue (w : Worker) (ms : list XMessage) :
  forall hs,
    snd (fst (range_messages w ms hs)) = Some (Done ExitRequeue) ->
    exists pre m err rest,
      fst (fst (range_messages w ms hs)) = pre ++ stop_trace w m err
      /\ entries_read pre = []
      /\ ms = delivered pre ++ m :: rest.
Proof.
  induction ms as [|m ms IH]; intros hs; simpl; [discriminate|].
  destruct hs as [|h hs]; simpl; [discriminate|].
  destruct h as [[| |] e].
  - specialize (IH hs). unfold handoff at 1 2. simpl.
    destruct (range_messages w ms hs) as [[tr' k'] hs'']. simpl in *.
    intros Hk. destruct (IH Hk) as (pre & m' & err & rest & -> & Hr & ->).
    exists ((EvSelect m Delivered
             :: EvXAck (streamName (opts w)) (group (opts w)) (ID m) e
             :: match e with
                | Some _ => [EvLog (LogCantAck (ID m))]
                | None => []
                end) ++ pre), m', err, rest.
    split; [now rewrite <- app_assoc|].
    rewrite entries_read_app, delivered_app, Hr.
    destruct e; simpl; auto.
  - intros _. exists [], m, e, ms.
    unfold stop_trace, handoff, queue. simpl. auto.
  - unfold handoff. simpl. discriminate.
Qed.

(** X11.  When the loop returns from the handoff, the entry it requeued is
    the first entry read that was not delivered, and the requeue comes
    before the completion signal: the run ends with the select on that
    entry, the log line, the [XAdd] of its field map, a log line if the
    [XAdd] failed, and then the close of [exit].  So a [Shutdown] that sees
    [exit] closed sees it after the requeue has been answered. *)
Theorem fetchTask_requeue_precedes_exit (w : Worker)
    (env : list iteration_env) :
  snd (fetchTask w env) = Done ExitRequeue ->
  let tr := fst (fetchTask w env) in
  exists pre m err rest,
    tr = pre
         ++ [EvSelect m StopSignalled; EvLog (LogRequeue (ID m));
             requeue_of w m err]
         ++ match err with
            | Some _ => [EvLog (LogRequeueFailed (ID m))]
            | None => []
            end
         ++ [EvClose ChExit]
    /\ entries_read tr = delivered tr ++ m :: rest
    /\ delivered tr = delivered pre.
Proof.
  intros Hr tr.
  assert (H : exists pre m err rest,
             tr = pre ++ stop_trace w m err
             /\ entries_read tr = delivered pre ++ m :: rest).
  { unfold tr. clear tr.
    induction env as [|e env IH]; simpl in *; [discriminate|].
    pose proof (iteration_order w e) as Ho.
    assert (Hit : snd (iteration w e) = Some (Done ExitRequeue) ->
              exists pre m err rest,
                fst (iteration w e) = pre ++ stop_trace w m err
                /\ entries_read (fst (iteration w e))
                   = delivered pre ++ m :: rest).
    { unfold iteration. destruct (stop_ready e); simpl; [discriminate|].
      destruct (read_err e) as [err|]; simpl; [discriminate|].
      rewrite range_data_flat.
      pose proof (range_messages_requeue w (flat_messages (read_data e))
                    (handoffs e)) as Hq.
      destruct (range_messages w (flat_messages (read_data e)) (handoffs e))
        as [[tr k] hs']. simpl in *.
      intros Hk. destruct (Hq Hk) as (pre & m & err & rest & -> & Hp & Hm).
      exists (EvXReadGroup (read_args w) (read_data e) None :: pre), m, err, rest.
      split; [reflexivity|]. simpl.
      destruct (stop_trace_shape w m err) as (_ & _ & Hs).
      rewrite entries_read_app, Hp, Hs, app_nil_r. exact Hm. }
    destruct (iteration w e) as [tr [r|]]; simpl in *.
    - subst r. apply Hit. reflexivity.
    - destruct Ho as (_ & last & rest0 & Hm & _ & _ & Hn & _).
      destruct (Hn eq_refl) as [-> ->]. rewrite !app_nil_r in Hm.
      destruct (fetchTask w env) as [tr' r']; simpl in *.
      destruct (IH Hr) as (pre & m & err & rest & -> & Hp).
      exists (tr ++ pre), m, err, rest.
      split; [now rewrite <- app_assoc|].
      rewrite entries_read_app, delivered_app, Hm, Hp, <- app_assoc.
      reflexivity. }
  destruct H as (pre & m & err & rest & Ht & Hp).
  destruct (stop_trace_shape w m err) as (Hs & Hd & _).
  exists pre, m, err, rest.
  assert (Hdel : delivered tr = delivered pre).
  { rewrite Ht, delivered_app, Hd, app_nil_r. reflexivity. }
  split; [rewrite Ht, Hs; reflexivity|]. split; [|exact Hdel].
  rewrite Hdel. exact Hp.
Qed.

(** X12.  The requeue repeats the original enqueue and is not stopped by
    the lifecycle flag.  When [Queue] issued its [XAdd] for a task and an
    entry carries the field map of that call, the requeue of that entry by
    a worker with the same options issues an [XAdd] with the very same
    arguments, exactly one, also on a worker whose flag is set, where
    [Queue] itself refuses the task. *)
Theorem requeue_repeats_enqueue (err : option error) (w : Worker)
    (task : TaskMessage) (a : XAddArgs) (m : XMessage) (w' : Worker)
    (err' : option error) :
  fst (Queue err w task) = [EvXAdd a err] ->
  Values m = xa_Values a ->
  opts w' = opts w ->
  stopFlag w' = 1 ->
  In (EvXAdd a err') (fst (handoff w' (mkHandoff StopSignalled err') m))
  /\ count is_xadd (fst (handoff w' (mkHandoff StopSignalled err') m)) = 1%nat
  /\ Queue err' w' task = ([], Some ErrQueueShutdown).
Proof.
  unfold Queue, queue, LoadInt32.
  destruct (stopFlag w =? 1); simpl; [discriminate|].
  intros [= <-] Hv Ho Hf. simpl in Hv. rewrite Hf. simpl.
  unfold handoff, queue. simpl. rewrite Hv, Ho.
  destruct err'; simpl; repeat split; auto.
Qed.

(** ** Shutdown among other calls *)

(** X13.  [Queue] is refused as soon as any call of [Shutdown] has made its
    first step, in every interleaving, and so before [stop] is closed; as
    long as no call has made a step, [Queue] issues its [XAdd]. *)
Theorem Queue_refused_once_shutdown_began (w : Worker) (n : nat)
    (sched : list sched_item) (err : option error) (task : TaskMessage) :
  running w ->
  let c := exec (calls w n) sched in
  ((exists i pc, threads c !! i = Some pc /\ pc <> SdCall) ->
   Queue err (cw c) task = ([], Some ErrQueueShutdown))
  /\ (Forall (eq SdCall) (threads c) ->
      count is_xadd (fst (Queue err (cw c) task)) = 1%nat
      /\ snd (Queue err (cw c) task) = err).
Proof.
  intros Hrun c.
  destruct (exec_inv sched (calls w n) (calls_inv w n Hrun)) as [Hinv _].
  fold c in Hinv. unfold Queue, LoadInt32, queue.
  destruct Hinv as [((Hf & _) & Hall & _)|(Hf & iw & pcw & Hw & Hat & _)].
  - rewrite Hf. simpl. split; [|auto].
    intros (i & pc & Hi & Hne). exfalso. apply Hne. symmetry.
    eapply Forall_lookup_1; eauto.
  - rewrite Hf. simpl. split; [reflexivity|].
    intros Hall. exfalso.
    pose proof (Forall_lookup_1 _ _ _ _ Hall Hw) as <-. exact Hat.
Qed.

(** X14.  Whatever the interleaving of the calls of [Shutdown], the effects
    come in the order of one shutdown sequence: [stop] is closed first,
    then the wait ends, then the connection is closed, then [tasks].  In
    particular [tasks] is never closed before [stop]. *)
Theorem Shutdown_effects_in_order (w : Worker) (n : nat)
    (sched : list sched_item) :
  running w ->
  let c := exec (calls w n) sched in
  (exists d, ctrace c `prefix_of` shutdown_sequence d)
  /\ (In (EvClose ChTasks) (ctrace c) ->
      exists d, ctrace c = shutdown_sequence d).
Proof.
  intros Hrun c.
  destruct (exec_inv sched (calls w n) (calls_inv w n Hrun)) as [Hinv _].
  fold c in Hinv.
  destruct Hinv as [(_ & _ & Htr & _)|(_ & iw & pcw & _ & Hat & _)].
  - rewrite Htr. split; [|intros []].
    exists None. apply prefix_nil.
  - destruct pcw; simpl in Hat.
    + contradiction.
    + destruct Hat as (-> & _). split; [|intros []].
      exists None. apply prefix_nil.
    + destruct Hat as (-> & _). split; [|intros []].
      exists None. apply prefix_nil.
    + destruct Hat as (-> & _). split.
      * exists None. now exists [wait_requeue None; EvConnClose; EvClose ChTasks].
      * intros [H|[]]. discriminate H.
    + destruct Hat as (d & -> & _). split.
      * exists d. now exists [EvConnClose; EvClose ChTasks].
      * intros [H|[H|[]]]; [discriminate H|].
        destruct (wait_requeue_cases d) as [(t & Ht & _)|Ht];
          rewrite Ht in H; discriminate H.
    + destruct Hat as (d & -> & _). split.
      * exists d. now exists [EvClose ChTasks].
      * intros [H|[H|[H|[]]]]; try discriminate H.
        destruct (wait_requeue_cases d) as [(t & Ht & _)|Ht];
          rewrite Ht in H; discriminate H.
    + destruct Hat as (_ & d & ->). split; exists d; reflexivity.
Qed.

Lemma sched_step_progress (c : config) (j : nat) (d : option Duration)
    (i : nat) (pc : sd_pc) :
  shutdown_inv c -> threads c !! i = Some pc ->
  exists pc',
    threads (sched_step c (j, d)) !! i = Some pc'
    /\ (steps_left pc' <= steps_left pc - (if Nat.eqb j i then 1 else 0))%nat.
Proof.
  intros Hinv Hi. pose proof (lookup_lt_Some _ _ _ Hi) as Hlen.
  unfold sched_step. simpl.
  destruct (Nat.eqb_spec j i) as [->|Hne].
  - rewrite Hi.
    assert (Hstep :
      (steps_left (snd (fst (sd_step d (cw c) (once_held c) pc)))
       <= steps_left pc - 1)%nat).
    { destruct Hinv as [((Hf & _) & Hall & _)|(Hf & iw & pcw & Hw & Hat & Hothers)].
      - pose proof (Forall_lookup_1 _ _ _ _ Hall Hi) as <-. simpl.
        unfold CompareAndSwapInt32. rewrite Hf. simpl. lia.
      - destruct (decide (i = iw)) as [->|Hiw].
        + assert (pc = pcw) as -> by congruence.
          destruct (returned pcw) eqn:Hr.
          * destruct pcw; try discriminate Hr. simpl. lia.
          * pose proof (winner_step d c pcw Hf Hat) as Hs.
            destruct (sd_step d (cw c) (once_held c) pcw)
              as [[[w' held'] pc'] evs].
            destruct Hs as (_ & _ & Hlt). simpl.
            specialize (Hlt Hr). lia.
        + destruct (Hothers i pc Hiw Hi) as [-> | ->]; simpl.
          * unfold CompareAndSwapInt32. rewrite Hf. simpl. lia.
          * lia. }
    destruct (sd_step d (cw c) (once_held c) pc) as [[[w' held'] pc'] evs].
    simpl in *. exists pc'. split; [now apply list_lookup_insert_eq|exact Hstep].
  - exists pc. split; [|lia].
    destruct (threads c !! j) as [pcj|]; [|exact Hi].
    destruct (sd_step d (cw c) (once_held c) pcj) as [[[w' held'] pc'] evs].
    simpl. rewrite list_lookup_insert_ne by auto. exact Hi.
Qed.

Lemma exec_progress (sched : list sched_item) (i : nat) :
  forall c pc,
    shutdown_inv c -> threads c !! i = Some pc ->
    exists pc',
      threads (exec c sched) !! i = Some pc'
      /\ (steps_left pc' <= steps_left pc - picks i sched)%nat.
Proof.
  induction sched as [|[j d] sched IH]; intros c pc Hinv Hi; simpl.
  - exists pc. split; [exact Hi|lia].
  - destruct (sched_step_progress c j d i pc Hinv Hi) as (pc1 & H1 & Hl1).
    destruct (IH (sched_step c (j, d)) pc1 (shutdown_inv_step c (j, d) Hinv) H1)
      as (pc' & H' & Hl').
    exists pc'. split; [exact H'|]. lia.
Qed.

(** X15.  Fairness is enough for every call of [Shutdown] to return: under
    any schedule that picks each of the [n] calls six times or more, all
    calls have returned, and the effects are those of exactly one shutdown
    sequence.  No call is left waiting for another. *)
Theorem Shutdown_calls_all_return (w : Worker) (n : nat)
    (sched : list sched_item) :
  running w ->
  (forall i, (i < n)%nat -> (6 <= picks i sched)%nat) ->
  let c := exec (calls w n) sched in
  Forall (fun pc => returned pc = true) (threads c)
  /\ ((0 < n)%nat -> exists d, ctrace c = shutdown_sequence d).
Proof.
  intros Hrun Hfair c.
  destruct (exec_inv sched (calls w n) (calls_inv w n Hrun)) as [Hinv Hlen].
  fold c in Hinv, Hlen. simpl in Hlen. rewrite length_replicate in Hlen.
  assert (Hret : Forall (fun pc => returned pc = true) (threads c)).
  { apply Forall_lookup_2. intros i pc Hi.
    pose proof (lookup_lt_Some _ _ _ Hi) as Hin. rewrite Hlen in Hin.
    assert (H0 : threads (calls w n) !! i = Some SdCall).
    { simpl. now apply lookup_replicate_2. }
    destruct (exec_progress sched i (calls w n) SdCall (calls_inv w n Hrun) H0)
      as (pc' & Hi' & Hl).
    fold c in Hi'. assert (pc' = pc) as -> by congruence.
    specialize (Hfair i Hin). simpl in Hl.
    destruct pc; simpl in Hl; try lia. reflexivity. }
  split; [exact Hret|]. intros Hn.
  destruct Hinv as [(_ & Hall & _)|(_ & iw & pcw & Hw & Hat & _)].
  - destruct (lookup_lt_is_Some_2 (threads c) 0) as [pc Hpc]; [lia|].
    pose proof (Forall_lookup_1 _ _ _ _ Hall Hpc) as <-.
    pose proof (Forall_lookup_1 _ _ _ _ Hret Hpc) as H. discriminate H.
  - pose proof (Forall_lookup_1 _ _ _ _ Hret Hw) as Hr.
    destruct pcw; try discriminate Hr. destruct Hat as (_ & d & Htr).
    exists d. exact Htr.
Qed.

(** ** The life of a worker *)

Section Lifecycle.
Context `{JM : JobMessage}.

Lemma startConsumer_keeps (create_err : option error) (w : Worker) :
  opts (fst (startConsumer create_err w)) = opts w
  /\ stopFlag (fst (startConsumer create_err w)) = stopFlag w.
Proof.
  unfold startConsumer. destruct (startOnce w); simpl; auto.
Qed.

Lemma Requests_keep (envs : list request_env) :
  forall w, running w -> running (fst (Requests envs w)).
Proof.
  induction envs as [|e envs IH]; intros w Hrun; simpl; [exact Hrun|].
  destruct (Request_start (create_answer e) (polls_met e) w) as (_ & _ & Hw).
  destruct (Request (create_answer e) (polls_met e) w) as [[w' tr] r].
  simpl in *.
  assert (Hrun' : running w').
  { rewrite Hw. now apply startConsumer_running. }
  destruct r as [res| |]; simpl; try exact Hrun'.
  specialize (IH w' Hrun').
  destruct (Requests envs w') as [w'' tr']. exact IH.
Qed.

(** X16.  Serving requests does not touch the lifecycle.  After any
    sequence of calls of [Request] on a running worker, [Queue] still
    issues its [XAdd] and the first [Shutdown] still wins and performs the
    shutdown sequence; after that [Queue] is refused and a further
    [Shutdown] returns [ErrQueueShutdown] and leaves the worker as it
    is. *)
Theorem worker_lifecycle (envs : list request_env) (d d' : option Duration)
    (w : Worker) (err : option error) (task : TaskMessage) :
  running w ->
  let w1 := fst (Requests envs w) in
  let w2 := fst (fst (Shutdown d w1)) in
  count is_xadd (fst (Queue err w1 task)) = 1%nat
  /\ Shutdown d w1 = (w2, shutdown_sequence d, Done None)
  /\ Queue err w2 task = ([], Some ErrQueueShutdown)
  /\ Shutdown d' w2 = (w2, [], Done (Some ErrQueueShutdown)).
Proof.
  intros Hrun w1 w2.
  pose proof (Requests_keep envs w Hrun) as (Hf & Ho & Hs & Ht).
  fold w1 in Hf, Ho, Hs, Ht. unfold w2. clearbody w1. clear w2 Hrun.
  destruct w1 as [r rc tc f o so sc ec op]. simpl in *. subst.
  destruct r; repeat split.
Qed.

(** X17.  [Request] does not consult the lifecycle flag.  A first call of
    [Request] made after [Shutdown] still creates the group and starts the
    consumer loop, once. *)
Theorem Request_after_Shutdown_starts_consumer (d : option Duration)
    (create_err : option error) (polls : list poll) (w : Worker) :
  running w -> startOnce w = false ->
  let w2 := fst (fst (Shutdown d w)) in
  stopFlag w2 = 1
  /\ count is_group_create (snd (fst (Request create_err polls w2))) = 1%nat
  /\ count is_go (snd (fst (Request create_err polls w2))) = 1%nat.
Proof.
  intros (Hf & Ho & Hs & Ht) Hst w2.
  assert (H2 : stopFlag w2 = 1 /\ startOnce w2 = false).
  { unfold w2. destruct w as [r rc tc f o so sc ec op]. simpl in *. subst.
    destruct r; split; reflexivity. }
  destruct H2 as [H1 H2]. split; [exact H1|].
  destruct (Request_start create_err polls w2) as (Hg & Hc & _).
  rewrite H2 in Hg, Hc. auto.
Qed.

End Lifecycle.

(** ** The further properties at concrete runs *)

(** Six timeouts and then an entry: the call has ended. *)
Lemma Request_returns_within_six_polls_witness :
  snd (Request (JM := example_JobMessage) None
         (replicate 6 TimedOut ++ [Received entry_1]) example_worker)
  <> Blocked.
Proof.
  apply (Request_returns_within_six_polls (JM := example_JobMessage) None
           (replicate 6 TimedOut ++ [Received entry_1]) example_worker).
  simpl. lia.
Defined.

(** A call that finds the channel closed gives no message and that error. *)
Lemma Request_result_shape_witness :
  (exists data : list Byte.byte, None = Some data /\ Some ErrQueueHasBeenClosed = None)
  \/ (@None (list Byte.byte) = None
      /\ (Some ErrQueueHasBeenClosed = Some ErrNoTaskInQueue
          \/ Some ErrQueueHasBeenClosed = Some ErrQueueHasBeenClosed)).
Proof.
  apply (Request_result_shape (JM := example_JobMessage) None
           [TimedOut; ChannelClosed] example_worker).
  reflexivity.
Defined.

(** An entry that arrives after three timeouts. *)
Lemma Request_takes_entry_within_window_witness :
  elapsed (snd (fst (Request (JM := example_JobMessage) None
                       (replicate 3 TimedOut ++ Received entry_1 :: [TimedOut])
                       example_worker)))
  = 3 * Second.
Proof.
  apply (Request_takes_entry_within_window (JM := example_JobMessage) None
           example_worker 3 entry_1 "a" [TimedOut]).
  - lia.
  - reflexivity.
Defined.

(** Three calls in a row start one consumer. *)
Lemma Requests_start_consumer_once_witness :
  count is_go
    (snd (Requests (JM := example_JobMessage)
            [mkRequestEnv None [Received entry_1];
             mkRequestEnv None (replicate 6 TimedOut);
             mkRequestEnv None [Received entry_2]]
            example_worker))
  = 1%nat.
Proof.
  apply (Requests_start_consumer_once (JM := example_JobMessage)).
  reflexivity.
Defined.

(** The example task, queued and then received. *)
Lemma Queue_Request_round_trip_witness :
  snd (Request (JM := example_JobMessage) None [Received queued_entry]
         example_worker)
  = Done (Some (fst (json_Unmarshal (Bytes example_task) zero_Message)), None).
Proof.
  apply (Queue_Request_round_trip (JM := example_JobMessage) None example_worker
           example_task queued_args queued_entry None [Received queued_entry]
           example_worker).
  - reflexivity.
  - reflexivity.
  - vm_compute. right. right. left. reflexivity.
Defined.

(** A run that ends at the stop check after one delivery. *)
Lemma fetchTask_stop_check_leaves_nothing_witness :
  delivered (fst (fetchTask example_worker delivered_then_stop_check))
  = entries_read (fst (fetchTask example_worker delivered_then_stop_check)).
Proof.
  apply (fetchTask_stop_check_leaves_nothing example_worker
           delivered_then_stop_check).
  reflexivity.
Defined.

(** In [two_delivered_then_stop] every read returns one entry at most. *)
Lemma fetchTask_one_outstanding_witness :
  exists pending,
    entries_read (fst (fetchTask example_worker two_delivered_then_stop))
    = delivered (fst (fetchTask example_worker two_delivered_then_stop))
      ++ pending
    /\ (length pending <= 1)%nat.
Proof.
  destruct (fetchTask_one_outstanding example_worker two_delivered_then_stop)
    as (pending & Hp & Hl & _).
  - repeat constructor; unfold count_respected; simpl; lia.
  - exists pending. split; assumption.
Defined.

(** [two_delivered_then_stop] ends with the requeue of its third entry. *)
Lemma fetchTask_requeue_precedes_exit_witness :
  exists pre m err rest,
    fst (fetchTask example_worker two_delivered_then_stop)
    = pre
      ++ [EvSelect m StopSignalled; EvLog (LogRequeue (ID m));
          requeue_of example_worker m err]
      ++ match err with
         | Some _ => [EvLog (LogRequeueFailed (ID m))]
         | None => []
         end
      ++ [EvClose ChExit]
    /\ entries_read (fst (fetchTask example_worker two_delivered_then_stop))
       = delivered (fst (fetchTask example_worker two_delivered_then_stop))
         ++ m :: rest.
Proof.
  destruct (fetchTask_requeue_precedes_exit example_worker two_delivered_then_stop)
    as (pre & m & err & rest & H1 & H2 & _).
  - reflexivity.
  - exists pre, m, err, rest. split; assumption.
Defined.

(** The queued entry requeued by a worker that was shut down. *)
Lemma requeue_repeats_enqueue_witness :
  In (EvXAdd queued_args None)
    (fst (handoff stopped_worker (mkHandoff StopSignalled None) queued_entry))
  /\ Queue None stopped_worker example_task = ([], Some ErrQueueShutdown).
Proof.
  destruct (requeue_repeats_enqueue None example_worker example_task queued_args
              queued_entry stopped_worker None) as (H1 & _ & H2);
    try reflexivity.
  split; assumption.
Defined.

(** After the first step of [three_calls_schedule] [Queue] is refused. *)
Lemma Queue_refused_once_shutdown_began_witness :
  Queue None (cw (exec (calls example_worker 3) [(2%nat, None)])) example_task
  = ([], Some ErrQueueShutdown).
Proof.
  assert (Hrun : running example_worker) by (repeat split; reflexivity).
  destruct (Queue_refused_once_shutdown_began example_worker 3 [(2%nat, None)]
              None example_task Hrun) as [H _].
  apply H. exists 2%nat, SdOnce. split; [reflexivity|discriminate].
Defined.

(** Half way through [three_calls_schedule]. *)
Lemma Shutdown_effects_in_order_witness :
  exists d,
    ctrace (exec (calls example_worker 3) (take 5 three_calls_schedule))
    `prefix_of` shutdown_sequence d.
Proof.
  assert (Hrun : running example_worker) by (repeat split; reflexivity).
  apply (Shutdown_effects_in_order example_worker 3
           (take 5 three_calls_schedule) Hrun).
Defined.

(** Two calls served in turn, six times each. *)
Lemma Shutdown_calls_all_return_witness :
  Forall (fun pc => returned pc = true)
    (threads (exec (calls example_worker 2) two_calls_in_turn)).
Proof.
  assert (Hrun : running example_worker) by (repeat split; reflexivity).
  apply (Shutdown_calls_all_return example_worker 2 two_calls_in_turn Hrun).
  intros i Hi. destruct i as [|[|i]]; [vm_compute; lia|vm_compute; lia|lia].
Defined.

(** Two requests, then shutdown, then a task and a second shutdown. *)
Lemma worker_lifecycle_witness :
  Queue None
    (fst (fst (Shutdown None
                 (fst (Requests (JM := example_JobMessage)
                         [mkRequestEnv None [Received entry_1];
                          mkRequestEnv None [TimedOut; Received entry_2]]
                         example_worker)))))
    example_task
  = ([], Some ErrQueueShutdown).
Proof.
  assert (Hrun : running example_worker) by (repeat split; reflexivity).
  apply (worker_lifecycle (JM := example_JobMessage)
           [mkRequestEnv None [Received entry_1];
            mkRequestEnv None [TimedOut; Received entry_2]]
           None None example_worker None example_task Hrun).
Defined.

(** A first request on a worker that was shut down. *)
Lemma Request_after_Shutdown_starts_consumer_witness :
  count is_go
    (snd (fst (Request (JM := example_JobMessage) None [ChannelClosed]
                 (fst (fst (Shutdown None example_worker))))))
  = 1%nat.
Proof.
  assert (Hrun : running example_worker) by (repeat split; reflexivity).
  apply (Request_after_Shutdown_starts_consumer (JM := example_JobMessage)
           None None [ChannelClosed] example_worker Hrun).
  reflexivity.
Defined.
